(** * finance_engine.c: hash-bucketed return store and 5%-VaR estimators

    A shallow embedding of [src/finance_engine.c].  C [float] and [double]
    values are IEEE-754 binary32 / binary64 numbers, represented by the
    Standard Library's [spec_float] and computed with its parameterised
    operations, every [float] expression being evaluated in [float]
    (FLT_EVAL_METHOD 0); [long] is a 64-bit two's-complement integer that
    wraps around; [char] is signed and [toupper] is that of the C locale;
    the global [buckets] array is a list of [TABLE_SIZE] optional
    portfolios; the [int] counts of a portfolio are integers of [Z], which
    stay within twice the number of lines read.  The functions of the C library ([atof], [expf], [logf],
    [cosf], [sinf], [rand], [qsort]) are parameters of the embedding. *)

From Stdlib Require Import ZArith Lia Bool List String Ascii.
From Stdlib Require Import Permutation Sorted.
From Stdlib Require Import Floats.SpecFloat.
From stdpp Require Import list.

#[local] Unset Default Proof Using.
#[local] Open Scope Z_scope.

(** ** Floating point: binary32 and binary64 *)

Module F32.
Definition prec : Z := 24.
Definition emax : Z := 128.
Definition add := SFadd prec emax.
Definition sub := SFsub prec emax.
Definition mul := SFmul prec emax.
Definition div := SFdiv prec emax.
Definition sqrt := SFsqrt prec emax.
Definition ltb := SFltb.
Definition of_Z (n : Z) : spec_float := binary_normalize prec emax n 0 false.
Definition zero : spec_float := S754_zero false.
Definition one : spec_float := of_Z 1.
Definition valid (x : spec_float) : bool := valid_binary prec emax x.
End F32.

Module F64.
Definition prec : Z := 53.
Definition emax : Z := 1024.
Definition add := SFadd prec emax.
Definition sub := SFsub prec emax.
Definition mul := SFmul prec emax.
Definition div := SFdiv prec emax.
Definition sqrt := SFsqrt prec emax.
Definition ltb := SFltb.
Definition eqb := SFeqb.
Definition of_Z (n : Z) : spec_float := binary_normalize prec emax n 0 false.
Definition zero : spec_float := S754_zero false.
(** A decimal literal [n / 10^k] whose numerator and denominator are both
    exact doubles: the correctly rounded quotient is the literal's value. *)
Definition decimal (n : Z) (k : nat) : spec_float :=
  div (of_Z n) (of_Z (10 ^ Z.of_nat k)).
End F64.

(** Implicit conversion [float] -> [double]: exact, re-normalised to 53 bits. *)
Definition double_of_float (x : spec_float) : spec_float :=
  match x with
  | S754_finite s m e =>
      binary_normalize F64.prec F64.emax (cond_Zopp s (Zpos m)) e s
  | _ => x
  end.

(** Conversion [double] -> [float]: rounded to nearest, ties to even. *)
Definition float_of_double (x : spec_float) : spec_float :=
  match x with
  | S754_finite s m e =>
      binary_normalize F32.prec F32.emax (cond_Zopp s (Zpos m)) e s
  | _ => x
  end.

Definition is_nan (x : spec_float) : bool :=
  match x with S754_nan => true | _ => false end.

(** ** Characters and strings *)

(** [char] is signed: bytes 128..255 read as negative [int]s. *)
Definition int_of_char (c : ascii) : Z :=
  let n := Z.of_N (N_of_ascii c) in
  if n <? 128 then n else n - 256.

(** [toupper] in the C locale, on the [int] value of a character. *)
Definition toupper (c : Z) : Z :=
  if (97 <=? c) && (c <=? 122) then c - 32 else c.

(** ** The bucket index *)

Definition TABLE_SIZE : Z := 11.

(** Wrap-around of a result into the 64-bit [long] range. *)
Definition wrap_long (z : Z) : Z :=
  (z + 2 ^ 63) mod 2 ^ 64 - 2 ^ 63.

Definition hash_step (total : Z) (c : ascii) : Z :=
  let upperchar := toupper (int_of_char c) in
  let charint := upperchar - 65 in
  let charint := if charint =? 0 then 3 else charint in
  wrap_long (wrap_long (total * 33) + charint).

Fixpoint hash_loop (type : string) (total : Z) : Z :=
  match type with
  | EmptyString => total
  | String c rest => hash_loop rest (hash_step total c)
  end.

Definition hash (type : string) : Z :=
  let total := hash_loop type 5381 in
  let index := Z.rem total TABLE_SIZE in
  if index <? 0 then index * -1 else index.

(** ** Data model *)

(** [Portfolio]: the [returns] array is represented by its initialised
    prefix (the first [day_count] slots); the field [mean] of the C struct is
    [pf_mean] here, the name [mean] being the function's. *)
Record Portfolio := mkPortfolio {
  type_name : string;
  returns : list spec_float;
  day_count : Z;
  capacity : Z;
  pf_mean : spec_float;
  std_dev : spec_float;
  worst_case : spec_float;
  worst_case_rieman : spec_float
}.

Record RawData := mkRawData {
  raw_type : string;
  raw_value : spec_float
}.

(** The global [buckets] array: [TABLE_SIZE] pointers, [None] for NULL. *)
Definition Table := list (option Portfolio).

Definition empty_table : Table := replicate (Z.to_nat TABLE_SIZE) None.

(** [buckets[index]] as an lvalue: [None] when [index] is outside the array. *)
Definition bucket_at (buckets : Table) (index : Z) : option (option Portfolio) :=
  if (0 <=? index) && (index <? TABLE_SIZE)
  then buckets !! Z.to_nat index
  else None.

Definition set_bucket (buckets : Table) (index : Z) (p : Portfolio) : Table :=
  <[Z.to_nat index := Some p]> buckets.

(** The allocator: the outcomes of the coming [malloc]/[realloc] calls, in
    order; past the end of the list every request succeeds. *)
Definition Heap := list bool.

Definition alloc (h : Heap) : bool * Heap :=
  match h with
  | [] => (true, [])
  | ok :: h' => (ok, h')
  end.

(** The accesses outside an object that the program can make: an index
    outside [buckets], a label that does not fit the 20 bytes of [type] or
    [type_name], and the sample array when [malloc] returned NULL. *)
Inductive Crash := OutOfTable | LabelOverrun | NullSample.

(** Result of a step of [main]: a value, an early [return code], or
    undefined behaviour. *)
Inductive Res (A : Type) :=
  | Ok (a : A)
  | Return (code : Z)
  | Fault (c : Crash).
Arguments Ok {A} a.
Arguments Return {A} code.
Arguments Fault {A} c.

Definition bind {A B : Type} (m : Res A) (k : A -> Res B) : Res B :=
  match m with
  | Ok a => k a
  | Return code => Return code
  | Fault c => Fault c
  end.

Notation "'try' x := m 'in' k" := (bind m (fun x => k))
  (at level 10, x pattern, m at level 200, k at level 200).

(** [strcpy] into a [char[20]]: the string with its terminator must fit. *)
Definition strcpy20 (src : string) : Res string :=
  if 20 <=? Z.of_nat (String.length src) then Fault LabelOverrun else Ok src.

(** ** [strtok], [strcspn] and [load] *)

Definition is_comma (c : ascii) : bool := Ascii.eqb c ","%char.

Definition is_crlf (c : ascii) : bool :=
  Ascii.eqb c (ascii_of_nat 13) || Ascii.eqb c (ascii_of_nat 10).

(** The longest prefix without a [reject] character, and what follows it
    ([strcspn] gives the prefix's length). *)
Fixpoint span_until (reject : ascii -> bool) (s : string) : string * string :=
  match s with
  | EmptyString => (EmptyString, EmptyString)
  | String c r =>
      if reject c then (EmptyString, s)
      else let (t, rest) := span_until reject r in (String c t, rest)
  end.

Fixpoint skip_delims (delim : ascii -> bool) (s : string) : string :=
  match s with
  | EmptyString => EmptyString
  | String c r => if delim c then skip_delims delim r else s
  end.

(** One call of [strtok]: the next token and the saved position after the
    delimiter that ended it; [None] when only delimiters are left. *)
Definition strtok (delim : ascii -> bool) (s : string) : option (string * string) :=
  match skip_delims delim s with
  | EmptyString => None
  | s' =>
      let (tok, rest) := span_until delim s' in
      Some (tok, match rest with EmptyString => EmptyString | String _ r => r end)
  end.

Section Engine.

(** The C library, outside the repository: [atof], the single-precision
    [expf], [logf], [cosf], [sinf], [rand] with [RAND_MAX] (the [k]-th call
    returns [rand k]) and [qsort] over an array of [float]. *)
Variable atof : string -> spec_float.
Variable expf logf cosf sinf : spec_float -> spec_float.
Variable rand : nat -> Z.
Variable RAND_MAX : Z.
Variable qsort :
  (spec_float -> spec_float -> Z) -> list spec_float -> list spec_float.

(** [load] leaves [*data] as it was when a token is missing. *)
Definition load (line : string) (data : RawData) : Res RawData :=
  match strtok is_comma line with
  | None => Ok data
  | Some (type, saved) =>
      let type := fst (span_until is_crlf type) in
      match strtok is_comma saved with
      | None => Ok data
      | Some (return_str, _) =>
          try copied := strcpy20 type in
          Ok {| raw_type := copied;
                raw_value := float_of_double (atof return_str) |}
      end
  end.

(** ** [create_bucket] and the ingestion loop of [main] *)

(** [None] is the NULL returned when an allocation fails. *)
Definition create_bucket (type : string) (h : Heap)
    : Res (option Portfolio * Heap) :=
  let (ok_bucket, h) := alloc h in
  if negb ok_bucket then Ok (None, h)
  else
    let (ok_returns, h) := alloc h in
    if negb ok_returns then Ok (None, h)
    else
      try copied := strcpy20 type in
      Ok (Some {| type_name := copied; returns := []; day_count := 0;
                  capacity := 50;
                  pf_mean := F32.zero; std_dev := F32.zero;
                  worst_case := F32.zero; worst_case_rieman := F32.zero |}, h).

Record Run := mkRun {
  buckets : Table;
  current_entry : RawData;
  heap : Heap
}.

(** [buckets[index]] read in [main]. *)
Definition read_bucket (b : Table) (index : Z) : Res (option Portfolio) :=
  match bucket_at b index with
  | Some slot => Ok slot
  | None => Fault OutOfTable
  end.

(** [returns[day_count] = value; day_count++] on the initialised prefix. *)
Definition push_return (p : Portfolio) (cap : Z) (v : spec_float) : Portfolio :=
  {| type_name := type_name p;
     returns := returns p ++ [v];
     day_count := day_count p + 1;
     capacity := cap;
     pf_mean := pf_mean p; std_dev := std_dev p;
     worst_case := worst_case p; worst_case_rieman := worst_case_rieman p |}.

(** The second half of the loop body: grow when full, then append. *)
Definition append_entry (buckets : Table) (index : Z) (p : Portfolio)
    (v : spec_float) (h : Heap) : Res (Table * Heap) :=
  if capacity p <=? day_count p then
    let new_cap := capacity p * 2 in
    let (ok, h) := alloc h in
    if negb ok then Return 1
    else Ok (set_bucket buckets index (push_return p new_cap v), h)
  else Ok (set_bucket buckets index (push_return p (capacity p) v), h).

(** The first half: the bucket of the entry, created when the slot is
    NULL. *)
Definition find_or_create (slot : option Portfolio) (type : string) (h : Heap)
    : Res (Portfolio * Heap) :=
  match slot with
  | Some p => Ok (p, h)
  | None =>
      try (created, h) := create_bucket type h in
      match created with
      | Some p => Ok (p, h)
      | None => Return 1
      end
  end.

(** One iteration of the [while (fgets ...)] loop. *)
Definition ingest_line (r : Run) (buffer : string) : Res Run :=
  try entry := load buffer (current_entry r) in
  let index := hash (raw_type entry) in
  try slot := read_bucket (buckets r) index in
  try (p, h) := find_or_create slot (raw_type entry) (heap r) in
  try (b, h) := append_entry (buckets r) index p (raw_value entry) h in
  Ok {| buckets := b; current_entry := entry; heap := h |}.

Fixpoint ingest (r : Run) (lines : list string) : Res Run :=
  match lines with
  | [] => Ok r
  | buffer :: rest => try r' := ingest_line r buffer in ingest r' rest
  end.

(** ** Moment estimator: [mean] and [stand_dev] *)

(** [data[i]]; a read past the end of the array is unspecified, NaN here. *)
Definition array_get (data : list spec_float) (i : nat) : spec_float :=
  nth i data S754_nan.

(** [for (i = i0; i < i0 + n; i++) total_value += data[i];] *)
Fixpoint mean_loop (data : list spec_float) (n i : nat) (total_value : spec_float)
    : spec_float :=
  match n with
  | O => total_value
  | S n' =>
      mean_loop data n' (S i)
        (F64.add total_value (double_of_float (array_get data i)))
  end.

Definition mean (data : list spec_float) (count : Z) : spec_float :=
  if count =? 0 then F32.of_Z 0
  else
    let total_value := mean_loop data (Z.to_nat count) 0 (F64.of_Z 0) in
    float_of_double (F64.div total_value (F64.of_Z count)).

Fixpoint stand_dev_loop (data : list spec_float) (mean : spec_float) (n i : nat)
    (total_value : spec_float) : spec_float :=
  match n with
  | O => total_value
  | S n' =>
      let d := F32.sub (array_get data i) mean in
      stand_dev_loop data mean n' (S i)
        (F64.add total_value (double_of_float (F32.mul d d)))
  end.

Definition stand_dev (data : list spec_float) (count : Z) (mean : spec_float)
    : spec_float :=
  if count <? 2 then float_of_double F64.zero
  else
    let total_value :=
      stand_dev_loop data mean (Z.to_nat count) 0 (F64.of_Z 0) in
    float_of_double (F64.sqrt (F64.div total_value (F64.of_Z (count - 1)))).

(** ** Synthetic sampler *)

(** [#define PI 3.1415927]: a [double] constant. *)
Definition PI : spec_float := F64.decimal 31415927 7.

(** [#define INV_SQRT_2PI (1.0f / sqrtf(PI * 2.0f))] *)
Definition INV_SQRT_2PI : spec_float :=
  F32.div F32.one
    (F32.sqrt (float_of_double (F64.mul PI (double_of_float (F32.of_Z 2))))).

(** [(rand()+1.0)/(RAND_MAX+1.0)] stored in a [float]. *)
Definition uniform (k : nat) : spec_float :=
  float_of_double
    (F64.div (F64.add (F64.of_Z (rand k)) (F64.of_Z 1))
             (F64.add (F64.of_Z RAND_MAX) (F64.of_Z 1))).

(** The body of the loop, [pairs] times from the [k]-th call of [rand]. *)
Fixpoint synth_loop (mean deviation : spec_float) (pairs k : nat)
    : list spec_float :=
  match pairs with
  | O => []
  | S pairs' =>
      let u1 := uniform k in
      let u2 := uniform (S k) in
      let gravity := F32.sqrt (F32.mul (F32.of_Z (-2)) (logf u1)) in
      let angle :=
        float_of_double (F64.mul (F64.mul PI (F64.of_Z 2)) (double_of_float u2)) in
      let transform_u1 :=
        F32.add (F32.mul (F32.mul gravity (cosf angle)) deviation) mean in
      let transform_u2 :=
        F32.add (F32.mul (F32.mul gravity (sinf angle)) deviation) mean in
      transform_u1 :: transform_u2 :: synth_loop mean deviation pairs' (S (S k))
  end.

(** [None] is the NULL of a failed [malloc]. *)
Definition synth_data_generator (mean deviation : spec_float) (h : Heap)
    : option (list spec_float) * Heap :=
  let (ok, h) := alloc h in
  if negb ok then (None, h)
  else (Some (synth_loop mean deviation (Z.to_nat 5000) 0), h).

(** ** Monte Carlo tail estimator *)

(** The comparison function handed to [qsort]; its last two branches both
    return 1, so it never returns 0. *)
Definition compare (fa fb : spec_float) : Z :=
  if F32.ltb fa fb then -1
  else if F32.ltb fb fa then 1
  else 1.

Definition set_worst_case (p : Portfolio) (v : spec_float) : Portfolio :=
  {| type_name := type_name p; returns := returns p;
     day_count := day_count p; capacity := capacity p;
     pf_mean := pf_mean p; std_dev := std_dev p;
     worst_case := v; worst_case_rieman := worst_case_rieman p |}.

(** [qsort] sorts the first 10000 elements in place; the sorted array and
    the updated portfolio are returned. *)
Definition analyze (data : list spec_float) (bucket : Portfolio)
    : list spec_float * Portfolio :=
  let data := qsort compare (firstn (Z.to_nat 10000) data)
                ++ skipn (Z.to_nat 10000) data in
  let worst_case := array_get data 499 in
  (data, set_worst_case bucket worst_case).

(** ** Analytic tail estimator *)

Definition set_worst_case_rieman (p : Portfolio) (v : spec_float) : Portfolio :=
  {| type_name := type_name p; returns := returns p;
     day_count := day_count p; capacity := capacity p;
     pf_mean := pf_mean p; std_dev := std_dev p;
     worst_case := worst_case p; worst_case_rieman := v |}.

Definition step_size : spec_float := float_of_double (F64.decimal 1 4).

Definition target_mass : spec_float := F64.decimal 5 2.

(** The loop condition [bucket < 0.05], evaluated in [double]. *)
Definition below_target (bucket : spec_float) : bool :=
  F64.ltb (double_of_float bucket) target_mass.

(** The density at [x] as the loop body computes it. *)
Definition height (mean deviation x : spec_float) : spec_float :=
  let z := F32.div (F32.sub x mean) deviation in
  F32.mul (F32.div INV_SQRT_2PI deviation)
    (expf (float_of_double
             (F64.mul (SFopp (F64.decimal 5 1)) (double_of_float (F32.mul z z))))).

(** The [for] loop, at most [fuel] tests of its condition; [None] when the
    condition still holds after them. *)
Fixpoint rieman_loop (fuel : nat) (mean deviation x bucket : spec_float)
    : option spec_float :=
  match fuel with
  | O => None
  | S fuel' =>
      if below_target bucket then
        let bucket := F32.add bucket (F32.mul (height mean deviation x) step_size) in
        rieman_loop fuel' mean deviation (F32.add x step_size) bucket
      else Some x
  end.

Definition rieman (fuel : nat) (data : list spec_float)
    (mean deviation : spec_float) (adress : Portfolio) : option Portfolio :=
  let bucket := F32.of_Z 0 in
  let start := F32.sub mean (F32.mul (F32.of_Z 5) deviation) in
  match rieman_loop fuel mean deviation start bucket with
  | Some x => Some (set_worst_case_rieman adress x)
  | None => None
  end.

(** ** Export and [main] *)

(** One [printf] line: the values behind [%s,%.4f,%.4f,%.4f,%.4f]. *)
Record Report := mkReport {
  rep_type_name : string;
  rep_mean : spec_float;
  rep_stability : spec_float;
  rep_min_percentage : spec_float;
  rep_max_percentage : spec_float
}.

Definition percentage (v floor cap : spec_float) : spec_float :=
  F32.mul (F32.div (F32.sub v floor) (F32.sub cap floor)) (F32.of_Z 100).

(** The return value and what was written to stdout. *)
Definition send2python (ptr : option Portfolio) (user_query : string)
    : Z * list Report :=
  match ptr with
  | None => (1, [])
  | Some p =>
      let (min, max) :=
        if F32.ltb (worst_case p) (worst_case_rieman p)
        then (worst_case p, worst_case_rieman p)
        else (worst_case_rieman p, worst_case p) in
      let floor := float_of_double F64.zero in
      let cap := F32.of_Z 1 in
      let min_percentage := percentage min floor cap in
      let max_percentage := percentage max floor cap in
      let score := std_dev p in
      let stability := F32.sub (F32.of_Z 100) (percentage score floor cap) in
      (0, [ {| rep_type_name := type_name p; rep_mean := pf_mean p;
               rep_stability := stability;
               rep_min_percentage := min_percentage;
               rep_max_percentage := max_percentage |} ])
  end.

Definition set_mean (p : Portfolio) (v : spec_float) : Portfolio :=
  {| type_name := type_name p; returns := returns p;
     day_count := day_count p; capacity := capacity p;
     pf_mean := v; std_dev := std_dev p;
     worst_case := worst_case p; worst_case_rieman := worst_case_rieman p |}.

Definition set_std_dev (p : Portfolio) (v : spec_float) : Portfolio :=
  {| type_name := type_name p; returns := returns p;
     day_count := day_count p; capacity := capacity p;
     pf_mean := pf_mean p; std_dev := v;
     worst_case := worst_case p; worst_case_rieman := worst_case_rieman p |}.

(** The analysis stages [main] can call. *)
Inductive Call := CallSynth | CallAnalyze | CallRieman | CallSend.

Inductive Exit :=
  | Exited (code : Z)
  | Crashed (c : Crash).

(** What a run of [main] leaves behind: how it ended, the lines printed, the
    stages called in order, and the final table. *)
Record Outcome := mkOutcome {
  exit : Exit;
  stdout : list Report;
  calls : list Call;
  final_buckets : Table
}.

Definition stop (e : Exit) (b : Table) : Outcome :=
  {| exit := e; stdout := []; calls := []; final_buckets := b |}.

(** Phases 3 to 6 of [main] on the table left by ingestion.  [None]: the
    loop of [rieman] did not leave within [fuel] tests. *)
Definition analyse_target (fuel : nat) (b : Table) (h : Heap) (target : string)
    : option Outcome :=
  let index := hash target in
  match bucket_at b index with
  | None => Some (stop (Crashed OutOfTable) b)
  | Some None => Some (stop (Exited 3) b)
  | Some (Some p) =>
      let average := mean (returns p) (day_count p) in
      let p := set_mean p average in
      let sdev := stand_dev (returns p) (day_count p) average in
      if F64.eqb (double_of_float sdev) F64.zero then
        Some (stop (Exited 2) (set_bucket b index p))
      else
        let p := set_std_dev p sdev in
        match synth_data_generator average sdev h with
        | (None, _) =>
            Some {| exit := Crashed NullSample; stdout := [];
                    calls := [CallSynth];
                    final_buckets := set_bucket b index p |}
        | (Some temp_data, _) =>
            let (_, p) := analyze temp_data p in
            match rieman fuel (returns p) average sdev p with
            | None => None
            | Some p =>
                let (test, printed) := send2python (Some p) target in
                Some {| exit := Exited (if test =? 1 then 3 else 0);
                        stdout := printed;
                        calls := [CallSynth; CallAnalyze; CallRieman; CallSend];
                        final_buckets := set_bucket b index p |}
            end
        end
  end.

(** [main]: [file] is what [fopen] gives ([None] on failure, otherwise the
    buffers [fgets] returns in turn), [target] is [argv[2]], [entry0] the
    initial contents of [current_entry]. *)
Definition main (fuel : nat) (argc : Z) (file : option (list string))
    (target : string) (entry0 : RawData) (h : Heap) : option Outcome :=
  let h := snd (alloc h) in
  if negb (argc =? 3) then Some (stop (Exited 1) empty_table)
  else
    match file with
    | None => Some (stop (Exited 1) empty_table)
    | Some lines =>
        match ingest {| buckets := empty_table; current_entry := entry0;
                        heap := h |} lines with
        | Return c => Some (stop (Exited c) empty_table)
        | Fault c => Some (stop (Crashed c) empty_table)
        | Ok r => analyse_target fuel (buckets r) (heap r) target
        end
    end.

End Engine.

(** ** Reference instances of the C library

    Executable stand-ins for the library functions the engine calls, so that
    the model runs on concrete inputs.  The transcendental functions are
    evaluated in fixed point with [P] fraction bits and rounded once to
    binary32; they return the values C99 Annex F fixes at zeros, infinities
    and NaN. *)

Module Ref.

Definition P : Z := 96.
Definition LN2 : Z := 54916777467707473351141471128.
Definition PI_fix : Z := 248902613312231085230521944622.

Definition fix_mul (a b : Z) : Z := Z.shiftr (a * b) P.

(** The value [±m * 2^e] in fixed point. *)
Definition to_fix (s : bool) (m : positive) (e : Z) : Z :=
  cond_Zopp s (Z.shiftl (Zpos m) (e + P)).

Definition of_fix (v : Z) : spec_float :=
  binary_normalize F32.prec F32.emax v (- P) false.

(** [sum_{j < n} term_j] with [term_{j+1} = term_j * r / (k + j)]. *)
Fixpoint exp_series (n : nat) (k r term acc : Z) : Z :=
  match n with
  | O => acc
  | S n' => exp_series n' (k + 1) r (fix_mul term r / k) (acc + term)
  end.

Definition expf (x : spec_float) : spec_float :=
  match x with
  | S754_nan => S754_nan
  | S754_infinity false => S754_infinity false
  | S754_infinity true => S754_zero false
  | S754_zero _ => F32.one
  | S754_finite s m e =>
      let v := to_fix s m e in
      if (8 <=? e) || (Z.shiftl 89 P <? v) then
        (if s then S754_zero false else S754_infinity false)
      else if v <? - Z.shiftl 104 P then S754_zero false
      else
        let k := (2 * v + LN2) / (2 * LN2) in
        let r := v - k * LN2 in
        binary_normalize F32.prec F32.emax
          (exp_series 48 1 r (Z.shiftl 1 P) 0) (k - P) false
  end.

(** [sum_{j < n} p_j / (2j+1)] with [p_{j+1} = p_j * t2]: the series of atanh. *)
Fixpoint atanh_series (n : nat) (k t2 p acc : Z) : Z :=
  match n with
  | O => acc
  | S n' => atanh_series n' (k + 2) t2 (fix_mul p t2) (acc + p / k)
  end.

Definition logf (x : spec_float) : spec_float :=
  match x with
  | S754_nan => S754_nan
  | S754_zero _ => S754_infinity true
  | S754_infinity false => S754_infinity false
  | S754_infinity true => S754_nan
  | S754_finite true _ _ => S754_nan
  | S754_finite false m e =>
      let d := Zpos (digits2_pos m) in
      let mant := Z.shiftl (Zpos m) (P - (d - 1)) in
      let one := Z.shiftl 1 P in
      let t := Z.shiftl (mant - one) P / (mant + one) in
      let series := atanh_series 64 1 (fix_mul t t) t 0 in
      of_fix (2 * series + (e + d - 1) * LN2)
  end.

(** Alternating series: [term_{j+1} = - term_j * r2 / ((k+1)(k+2))]. *)
Fixpoint trig_series (n : nat) (k r2 term acc : Z) : Z :=
  match n with
  | O => acc
  | S n' =>
      trig_series n' (k + 2) r2
        (- (fix_mul term r2 / ((k + 1) * (k + 2)))) (acc + term)
  end.

(** The argument reduced to [-pi, pi]. *)
Definition reduce (s : bool) (m : positive) (e : Z) : Z :=
  let r := to_fix s m e mod (2 * PI_fix) in
  if PI_fix <? r then r - 2 * PI_fix else r.

Definition cosf (x : spec_float) : spec_float :=
  match x with
  | S754_nan | S754_infinity _ => S754_nan
  | S754_zero _ => F32.one
  | S754_finite s m e =>
      let r := reduce s m e in
      of_fix (trig_series 40 0 (fix_mul r r) (Z.shiftl 1 P) 0)
  end.

Definition sinf (x : spec_float) : spec_float :=
  match x with
  | S754_nan | S754_infinity _ => S754_nan
  | S754_zero _ => x
  | S754_finite s m e =>
      let r := reduce s m e in
      of_fix (trig_series 40 1 (fix_mul r r) r 0)
  end.

(** [atof] on [-]digits[.digits]; anything after the number is ignored. *)
Definition digit_of (c : ascii) : option Z :=
  let n := Z.of_N (N_of_ascii c) in
  if (48 <=? n) && (n <=? 57) then Some (n - 48) else None.

Fixpoint digits (s : string) (acc : Z) (count : nat) : Z * nat * string :=
  match s with
  | EmptyString => (acc, count, s)
  | String c r =>
      match digit_of c with
      | Some d => digits r (10 * acc + d) (S count)
      | None => (acc, count, s)
      end
  end.

Definition unsigned_decimal (s : string) : spec_float :=
  let '(ip, _, rest) := digits s 0 0 in
  match rest with
  | String "."%char frac =>
      let '(n, k, _) := digits frac ip 0 in F64.decimal n k
  | _ => F64.of_Z ip
  end.

Definition atof (s : string) : spec_float :=
  match s with
  | String "-"%char r => SFopp (unsigned_decimal r)
  | _ => unsigned_decimal s
  end.

(** A linear congruential [rand] with [RAND_MAX = 2^31 - 1]. *)
Definition RAND_MAX : Z := 2147483647.

Definition rand (k : nat) : Z :=
  (1103515245 * (Z.of_nat k + 12345) + 12345) mod (RAND_MAX + 1).

(** [qsort] as an insertion sort driven by the comparison function. *)
Fixpoint insert (cmp : spec_float -> spec_float -> Z) (x : spec_float)
    (l : list spec_float) : list spec_float :=
  match l with
  | [] => [x]
  | y :: l' => if cmp x y <=? 0 then x :: l else y :: insert cmp x l'
  end.

Definition qsort (cmp : spec_float -> spec_float -> Z) (l : list spec_float)
    : list spec_float :=
  fold_right (insert cmp) [] l.

End Ref.

(** ** Specification-side definitions *)

(** Label normalisation as the specification words it: trailing line
    terminators removed, letters folded to upper case. *)
Fixpoint strip_trailing (s : string) : string :=
  match s with
  | EmptyString => EmptyString
  | String c r =>
      match strip_trailing r with
      | EmptyString => if is_crlf c then EmptyString else String c EmptyString
      | r' => String c r'
      end
  end.

Definition upper_ascii (c : ascii) : ascii :=
  let n := N_of_ascii c in
  if (97 <=? n)%N && (n <=? 122)%N then ascii_of_N (n - 32) else c.

Fixpoint fold_case (s : string) : string :=
  match s with
  | EmptyString => EmptyString
  | String c r => String (upper_ascii c) (fold_case r)
  end.

Definition normalize_label (s : string) : string :=
  fold_case (strip_trailing s).

Fixpoint comma_free (s : string) : bool :=
  match s with
  | EmptyString => true
  | String c r => negb (is_comma c) && comma_free r
  end.

(** Sample standard deviation with the Bessel-corrected denominator: the
    squared deviations from [m], summed in [double], over [N - 1]. *)
Definition squared_deviations (series : list spec_float) (m : spec_float)
    : list spec_float :=
  map (fun x => let d := F32.sub x m in F32.mul d d) series.

Definition sum_double (l : list spec_float) : spec_float :=
  fold_left (fun acc v => F64.add acc (double_of_float v)) l (F64.of_Z 0).

Definition sample_std_dev (series : list spec_float) (m : spec_float)
    : spec_float :=
  let N := Z.of_nat (length series) in
  float_of_double
    (F64.sqrt (F64.div (sum_double (squared_deviations series m))
                       (F64.of_Z (N - 1)))).

(** The integration grid [x_k] and the left-endpoint rectangle sums
    [S_k = sum_{i < k} height(x_i) * step] of the analytic estimator. *)
Section RiemannSum.
Variable expf : spec_float -> spec_float.
Variables mean deviation : spec_float.

Fixpoint grid (k : nat) : spec_float :=
  match k with
  | O => F32.sub mean (F32.mul (F32.of_Z 5) deviation)
  | S k' => F32.add (grid k') step_size
  end.

Fixpoint riemann_sum (k : nat) : spec_float :=
  match k with
  | O => F32.of_Z 0
  | S k' =>
      F32.add (riemann_sum k')
        (F32.mul (height expf mean deviation (grid k')) step_size)
  end.

(** The loop entered at grid point [k] with the mass [S_k]. *)
Definition loop_at (fuel k : nat) : option spec_float :=
  rieman_loop expf fuel mean deviation (grid k) (riemann_sum k).


End RiemannSum.

(** ** The analytic estimator as the specification states it

    Written from the specification's formulas, with its constants as
    binary floating-point literals, to be compared with the loop of
    [rieman]. *)

(** The step 0.0001 in binary32: [13743895 * 2^-37]. *)
Definition spec_step : spec_float := S754_finite false 13743895 (-37).

(** The target mass 0.05 in binary64: [7205759403792794 * 2^-57]. *)
Definition spec_target_mass : spec_float :=
  S754_finite false 7205759403792794 (-57).

(** [1 / sqrt (2 pi)] in binary32: [13386282 * 2^-25]. *)
Definition inv_sqrt_two_pi : spec_float := S754_finite false 13386282 (-25).

(** [-0.5] in binary64: [-(2^52) * 2^-53]. *)
Definition minus_half : spec_float := S754_finite true 4503599627370496 (-53).


Section LeftRiemannSum.
Variable expf : spec_float -> spec_float.
Variables mean deviation : spec_float.




End LeftRiemannSum.

(** Ascending order of floats, and the number of sample values below [v]. *)
Definition float_le (x y : spec_float) : Prop := SFleb x y = true.

Definition ascending (l : list spec_float) : Prop :=
  forall i j x y, (i < j)%nat -> l !! i = Some x -> l !! j = Some y -> float_le x y.

Definition count_below (v : spec_float) (l : list spec_float) : nat :=
  length (filter (fun y => SFltb y v = true) l).

(** The specification's index formula, [floor (0.05 * N)]. *)
Definition percentile_index (N : Z) : Z := 5 * N / 100.

(** The number of sample values not above [v]. *)
Definition count_at_most (v : spec_float) (l : list spec_float) : nat :=
  length (filter (fun y => SFleb y v = true) l).

(** What [qsort] is assumed to do.  The comparison function orders the
    array when its "less than" ([cmp x y < 0]) is a strict weak order on
    the entries and a non-positive answer is never contradicted by a
    negative answer the other way round; a function that answers 0 on
    equivalent entries does so, and so does [compare], which answers 1 both
    ways on equal values.  The result is then a permutation of the array in
    which no entry compares less than an earlier one. *)
Definition orders (cmp : spec_float -> spec_float -> Z)
    (l : list spec_float) : Prop :=
  (forall x, In x l -> ~ cmp x x < 0) /\
  (forall x y z, In x l -> In y l -> In z l ->
     cmp x y < 0 -> cmp y z < 0 -> cmp x z < 0) /\
  (forall x y z, In x l -> In y l -> In z l ->
     cmp x z < 0 -> cmp x y < 0 \/ cmp y z < 0) /\
  (forall x y, In x l -> In y l -> cmp x y <= 0 -> ~ cmp y x < 0).

Definition in_order (cmp : spec_float -> spec_float -> Z)
    (l : list spec_float) : Prop :=
  forall i j x y, (i < j)%nat -> l !! i = Some x -> l !! j = Some y ->
    ~ cmp y x < 0.

Definition qsort_orders
    (qsort : (spec_float -> spec_float -> Z) -> list spec_float -> list spec_float)
    : Prop :=
  forall cmp l, orders cmp l ->
    Permutation l (qsort cmp l) /\ in_order cmp (qsort cmp l).

Definition nan_free (l : list spec_float) : bool :=
  forallb (fun x => negb (is_nan x)) l.

(** The loop of [rieman] never leaves, whatever the number of tests. *)
Definition diverges (expf : spec_float -> spec_float)
    (mean deviation : spec_float) : Prop :=
  forall fuel data adress, rieman expf fuel data mean deviation adress = None.

(** The return series reached through [buckets[index]]; empty while the
    slot is NULL. *)
Definition series_at (b : Table) (index : Z) : list spec_float :=
  match bucket_at b index with
  | Some (Some p) => returns p
  | _ => []
  end.

(** The state in which [main] enters its ingestion loop. *)
Definition start_run (entry0 : RawData) (h : Heap) : Run :=
  {| buckets := empty_table; current_entry := entry0; heap := snd (alloc h) |}.

Definition blank_entry : RawData :=
  {| raw_type := EmptyString; raw_value := F32.zero |}.

(** A run used as a worked example: two equal observations of one asset. *)
Definition two_lines : list string := ["Stocks,0.01"; "stocks,0.01"]%string.

Definition two_lines_run : Run :=
  Eval vm_compute in
    match ingest Ref.atof (start_run blank_entry []) two_lines with
    | Ok r => r
    | _ => start_run blank_entry []
    end.

Definition two_lines_bucket : Portfolio :=
  Eval vm_compute in
    match bucket_at (buckets two_lines_run) (hash "STOCKS") with
    | Some (Some p) => p
    | _ => {| type_name := EmptyString; returns := []; day_count := 0;
           capacity := 50; pf_mean := F32.zero; std_dev := F32.zero;
           worst_case := F32.zero; worst_case_rieman := F32.zero |}
    end.

(** A sample of 10000 distinct floats, out of order: 1, 0, 3, 2, ... *)
Definition swapped_sample : list spec_float :=
  Eval vm_compute in
    flat_map (fun i => [F32.of_Z (2 * Z.of_nat i + 1); F32.of_Z (2 * Z.of_nat i)])
      (seq 0 (Z.to_nat 5000)).

(** A sample of 10000 floats in which every value occurs twice, out of
    order: 1, 0, 1, 0, 3, 2, 3, 2, ... *)
Definition repeated_sample : list spec_float :=
  Eval vm_compute in
    flat_map (fun i => [F32.of_Z (2 * Z.of_nat i + 1); F32.of_Z (2 * Z.of_nat i);
                        F32.of_Z (2 * Z.of_nat i + 1); F32.of_Z (2 * Z.of_nat i)])
      (seq 0 (Z.to_nat 2500)).

(** The label as [load] stores it: cut at its first line terminator. *)
Definition cut_crlf (s : string) : string := fst (span_until is_crlf s).

Definition FLT_MAX : spec_float := SFmax_float F32.prec F32.emax.

Definition blank_portfolio : Portfolio :=
  {| type_name := EmptyString; returns := []; day_count := 0; capacity := 50;
     pf_mean := F32.zero; std_dev := F32.zero;
     worst_case := F32.zero; worst_case_rieman := F32.zero |}.

Definition one_percent : spec_float := F32.div (F32.of_Z 1) (F32.of_Z 100).

(** [m * 2^p] on positive mantissas, as [shl_align] computes it. *)
Definition shlp (m : positive) (p : Z) : positive :=
  match p with
  | Zpos q => Pos.iter xO m q
  | _ => m
  end.

(** The bit length of a mantissa. *)
Definition digits (m : positive) : Z := Zpos (digits2_pos m).

Definition is_finite (x : spec_float) : bool :=
  match x with
  | S754_zero _ | S754_finite _ _ _ => true
  | _ => false
  end.

(** The canonical binary64 float of value [(-1)^s * M * 2^E], for a
    mantissa of at most 53 bits well inside the exponent range. *)
Definition D64 (s : bool) (M : positive) (E : Z) : spec_float :=
  S754_finite s (shlp M (53 - digits M)) (E - (53 - digits M)).

(** The invariant of a return series after [n] ingested lines: [day_count]
    counts the stored observations, of which there are at most [n], and
    stays within the allocated [capacity], which is the initial 50 or at
    most twice the count. *)
Definition series_ok (n : Z) (p : Portfolio) : Prop :=
  day_count p = Z.of_nat (length (returns p)) /\
  day_count p <= capacity p /\ 50 <= capacity p /\
  day_count p <= n /\ capacity p <= Z.max 50 (2 * day_count p).

Definition table_ok (n : Z) (b : Table) : Prop :=
  forall i p, b !! i = Some (Some p) -> series_ok n p.

(** ** Definitions for the further properties *)

(** The pieces of a line between its commas. *)
Fixpoint split_commas (s : string) : list string :=
  match s with
  | EmptyString => [EmptyString]
  | String c r =>
      if is_comma c then EmptyString :: split_commas r
      else match split_commas r with
           | f :: fs => String c f :: fs
           | [] => [String c EmptyString]
           end
  end.

(** The fields of a CSV line: its non-empty pieces, in order. *)
Definition fields (s : string) : list string :=
  List.filter (fun f => negb (String.eqb f EmptyString)) (split_commas s).

(** A label with every ['A'] and ['a'] replaced by ['D']. *)
Definition a_to_d (c : ascii) : ascii :=
  if Ascii.eqb c "A"%char || Ascii.eqb c "a"%char then "D"%char else c.

Fixpoint replace_a (s : string) : string :=
  match s with
  | EmptyString => EmptyString
  | String c r => String (a_to_d c) (replace_a r)
  end.

(** The value of [total] in the loop of [hash] as an integer without
    bound, that is before any wrap-around of [long]. *)
Definition exact_step (total : Z) (c : ascii) : Z :=
  let charint := toupper (int_of_char c) - 65 in
  total * 33 + (if charint =? 0 then 3 else charint).

Fixpoint exact_loop (type : string) (total : Z) : Z :=
  match type with
  | EmptyString => total
  | String c rest => exact_loop rest (exact_step total c)
  end.

(** The line has two fields and a label, the first field cut at its first
    line terminator, of 20 characters or more. *)
Definition long_label (line : string) : Prop :=
  exists f1 f2 rest, fields line = f1 :: f2 :: rest /\
    (20 <= String.length (cut_crlf f1))%nat.

(** The number of observations held by the table: the sum of [day_count]
    over its buckets. *)
Definition observations (b : Table) : Z :=
  foldr (fun slot acc =>
           match slot with Some p => day_count p + acc | None => acc end) 0 b.

(** The part of a portfolio that ingestion writes, as opposed to the four
    statistics the analysis fills in. *)
Definition stored_part (p : Portfolio) : string * list spec_float * Z * Z :=
  (type_name p, returns p, day_count p, capacity p).

(** A worked example: two observations too large for a [float]. *)
Definition huge_lines : list string :=
  ["a,1000000000000000000000000000000000000000";
   "a,1000000000000000000000000000000000000000"]%string.

Definition huge_run : Run :=
  Eval vm_compute in
    match ingest Ref.atof (start_run blank_entry []) huge_lines with
    | Ok r => r
    | _ => start_run blank_entry []
    end.

Definition huge_bucket : Portfolio :=
  Eval vm_compute in
    match bucket_at (buckets huge_run) (hash "a") with
    | Some (Some p) => p
    | _ => blank_portfolio
    end.

(** The end of the run on [two_lines] with the target ["STOCKS"]. *)
Definition two_lines_outcome : Outcome :=
  {| exit := Exited 2; stdout := []; calls := [];
     final_buckets :=
       set_bucket (buckets two_lines_run) (hash "STOCKS")
         (set_mean two_lines_bucket
            (mean (returns two_lines_bucket) (day_count two_lines_bucket))) |}.

(** Not below zero: a zero, NaN, or a value whose sign bit is clear. *)
Definition not_negative (x : spec_float) : Prop :=
  match x with
  | S754_zero _ | S754_nan => True
  | S754_infinity s | S754_finite s _ _ => s = false
  end.

(** * Properties *)

(** ** The order of floats *)

Lemma SFcompare_antisym (x y : spec_float) :
  SFcompare y x = option_map CompOpp (SFcompare x y).
Proof.
  destruct x as [sx|sx| |sx mx ex], y as [sy|sy| |sy my ey];
    try destruct sx; try destruct sy; try reflexivity; simpl;
    rewrite (Z.compare_antisym ex ey);
    destruct (ex ?= ey); simpl; try reflexivity;
    rewrite !Pos.compare_cont_spec; simpl;
    rewrite (Pos.compare_antisym mx my); destruct (mx ?= my)%positive; reflexivity.
Qed.

Lemma SFltb_asym (x y : spec_float) : SFltb x y = true -> SFltb y x = false.
Proof.
  unfold SFltb. rewrite (SFcompare_antisym x y).
  destruct (SFcompare x y) as [[]|]; simpl; congruence.
Qed.

Lemma SFcompare_not_nan (x y : spec_float) :
  is_nan x = false -> is_nan y = false -> exists c, SFcompare x y = Some c.
Proof. destruct x, y; try discriminate; simpl; eauto. Qed.

(** Of two floats that are not NaN, one is below the other or the other is
    at most the one. *)
Lemma SFltb_false_SFleb (x y : spec_float) :
  is_nan x = false -> is_nan y = false ->
  SFltb x y = false -> SFleb y x = true.
Proof.
  unfold SFltb, SFleb. rewrite (SFcompare_antisym x y).
  intros Hx Hy. destruct (SFcompare_not_nan x y Hx Hy) as [c ->].
  destruct c; simpl; congruence.
Qed.

Ltac order_cases :=
  repeat match goal with
         | H : context [Z.compare ?a ?b] |- _ => destruct (Z.compare_spec a b)
         | |- context [Z.compare ?a ?b] => destruct (Z.compare_spec a b)
         | H : context [Pos.compare ?a ?b] |- _ => destruct (Pos.compare_spec a b)
         | |- context [Pos.compare ?a ?b] => destruct (Pos.compare_spec a b)
         end.

Lemma SFltb_trans (x y z : spec_float) :
  SFltb x y = true -> SFltb y z = true -> SFltb x z = true.
Proof.
  unfold SFltb.
  destruct x as [sx|sx| |sx mx ex], y as [sy|sy| |sy my ey],
           z as [sz|sz| |sz mz ez];
    try destruct sx; try destruct sy; try destruct sz;
    simpl; try discriminate; try reflexivity;
    rewrite ?Pos.compare_cont_spec; unfold Pos.switch_Eq;
    intros H1 H2; order_cases; simpl in *;
    try discriminate; try reflexivity; try lia.
Qed.

(** ** The bucket index stays inside the table *)

Lemma wrap_long_range (z : Z) : - 2 ^ 63 <= wrap_long z < 2 ^ 63.
Proof.
  unfold wrap_long.
  pose proof (Z.mod_pos_bound (z + 2 ^ 63) (2 ^ 64) ltac:(lia)). lia.
Qed.

Lemma hash_range (type : string) : 0 <= hash type <= TABLE_SIZE - 1.
Proof.
  unfold hash, TABLE_SIZE.
  set (total := hash_loop type 5381).
  pose proof (Z.rem_bound_abs total 11 ltac:(lia)) as Habs.
  destruct (Z.ltb_spec (Z.rem total 11) 0); lia.
Qed.

Lemma bucket_at_Some (b : Table) (index : Z) :
  length b = Z.to_nat TABLE_SIZE -> 0 <= index <= TABLE_SIZE - 1 ->
  exists slot, bucket_at b index = Some slot /\ b !! Z.to_nat index = Some slot.
Proof.
  intros Hlen Hidx. unfold bucket_at.
  destruct (Z.leb_spec 0 index); [|lia].
  destruct (Z.ltb_spec index TABLE_SIZE); [|lia]. simpl.
  destruct (b !! Z.to_nat index) as [slot|] eqn:E; [eauto|].
  apply lookup_ge_None in E. lia.
Qed.

Lemma bucket_at_set_same (b : Table) (index : Z) (p : Portfolio) :
  length b = Z.to_nat TABLE_SIZE -> 0 <= index <= TABLE_SIZE - 1 ->
  bucket_at (set_bucket b index p) index = Some (Some p).
Proof.
  intros Hlen Hidx. unfold bucket_at, set_bucket.
  destruct (Z.leb_spec 0 index); [|lia].
  destruct (Z.ltb_spec index TABLE_SIZE); [|lia]. simpl.
  apply list_lookup_insert_eq. lia.
Qed.

Lemma bucket_at_set_other (b : Table) (i j : Z) (p : Portfolio) :
  0 <= i -> 0 <= j -> i <> j ->
  bucket_at (set_bucket b i p) j = bucket_at b j.
Proof.
  intros Hi Hj Hne. unfold bucket_at, set_bucket.
  destruct ((0 <=? j) && (j <? TABLE_SIZE)); [|reflexivity].
  apply list_lookup_insert_ne. lia.
Qed.

Lemma length_set_bucket (b : Table) (index : Z) (p : Portfolio) :
  length (set_bucket b index p) = length b.
Proof. unfold set_bucket. apply length_insert. Qed.


(** ** The return store *)

Section Store.
Variable atof : string -> spec_float.

Lemma bucket_at_lookup (b : Table) (index : Z) (slot : option Portfolio) :
  bucket_at b index = Some slot ->
  0 <= index < TABLE_SIZE /\ b !! Z.to_nat index = Some slot.
Proof.
  unfold bucket_at.
  destruct (Z.leb_spec 0 index); simpl; [|discriminate].
  destruct (Z.ltb_spec index TABLE_SIZE); [|discriminate].
  intros ->. split; [lia | reflexivity].
Qed.

Lemma bucket_at_set_eq (b : Table) (index : Z) (slot : option Portfolio)
    (p : Portfolio) :
  bucket_at b index = Some slot ->
  bucket_at (set_bucket b index p) index = Some (Some p).
Proof.
  intros H. destruct (bucket_at_lookup _ _ _ H) as [Hr Hl].
  unfold bucket_at, set_bucket.
  destruct (Z.leb_spec 0 index); [|lia].
  destruct (Z.ltb_spec index TABLE_SIZE); [|lia]. simpl.
  apply list_lookup_insert_eq. eapply lookup_lt_Some, Hl.
Qed.

Lemma bind_Ok {A B : Type} (m : Res A) (k : A -> Res B) (b : B) :
  bind m k = Ok b -> exists a, m = Ok a /\ k a = Ok b.
Proof. destruct m as [a| |]; simpl; [eauto | discriminate..]. Qed.

Lemma strcpy20_Ok (src copied : string) :
  strcpy20 src = Ok copied ->
  copied = src /\ (String.length src < 20)%nat.
Proof.
  unfold strcpy20. destruct (Z.leb_spec 20 (Z.of_nat (String.length src)));
    [discriminate|]. intros [= <-]. split; [reflexivity | lia].
Qed.

Lemma create_bucket_Some (type : string) (h h' : Heap) (p : Portfolio) :
  create_bucket type h = Ok (Some p, h') ->
  type_name p = type /\ returns p = [] /\ day_count p = 0.
Proof.
  unfold create_bucket.
  destruct (alloc h) as [ok1 h1]. destruct ok1; simpl; [|discriminate].
  destruct (alloc h1) as [ok2 h2]. destruct ok2; simpl; [|discriminate].
  intros H. apply bind_Ok in H as (copied & Hc & H).
  apply strcpy20_Ok in Hc as [-> _]. injection H as <- _. auto.
Qed.

Lemma find_or_create_Ok (slot : option Portfolio) (type : string)
    (h h' : Heap) (p : Portfolio) :
  find_or_create slot type h = Ok (p, h') ->
  returns p = match slot with Some q => returns q | None => [] end.
Proof.
  unfold find_or_create. destruct slot as [q|].
  - intros [= <- _]. reflexivity.
  - intros H. apply bind_Ok in H as ([created h1] & Hc & H).
    destruct created as [q|]; [|discriminate]. injection H as <- _.
    apply (create_bucket_Some _ _ _ _ Hc).
Qed.

Lemma append_entry_Ok (b b' : Table) (index : Z) (p : Portfolio)
    (v : spec_float) (h h' : Heap) :
  append_entry b index p v h = Ok (b', h') ->
  exists cap, b' = set_bucket b index (push_return p cap v).
Proof.
  unfold append_entry. destruct (capacity p <=? day_count p).
  - destruct (alloc h) as [ok h1]. destruct ok; simpl; [|discriminate].
    intros [= <- _]. eauto.
  - intros [= <- _]. eauto.
Qed.

Lemma read_bucket_Ok (b : Table) (index : Z) (slot : option Portfolio) :
  read_bucket b index = Ok slot -> bucket_at b index = Some slot.
Proof.
  unfold read_bucket. destruct (bucket_at b index); [|discriminate].
  intros [= <-]. reflexivity.
Qed.

(** What one iteration of the ingestion loop does to the table. *)
Lemma ingest_line_Ok (r r' : Run) (buffer : string) :
  ingest_line atof r buffer = Ok r' ->
  exists entry,
    load atof buffer (current_entry r) = Ok entry /\
    current_entry r' = entry /\
    length (buckets r') = length (buckets r) /\
    (exists p, buckets r' = set_bucket (buckets r) (hash (raw_type entry)) p /\
       bucket_at (buckets r') (hash (raw_type entry)) = Some (Some p) /\
       returns p
       = series_at (buckets r) (hash (raw_type entry)) ++ [raw_value entry]) /\
    (forall j, 0 <= j -> j <> hash (raw_type entry) ->
       bucket_at (buckets r') j = bucket_at (buckets r) j).
Proof.
  unfold ingest_line. intros H.
  apply bind_Ok in H as (entry & Hload & H). exists entry.
  split; [exact Hload|]. cbv zeta in H.
  apply bind_Ok in H as (slot & Hslot & H). apply read_bucket_Ok in Hslot.
  apply bind_Ok in H as ([p h] & Hp & H). apply find_or_create_Ok in Hp.
  apply bind_Ok in H as ([b h1] & Hb & H). apply append_entry_Ok in Hb as [cap ->].
  injection H as <-. simpl.
  pose proof (hash_range (raw_type entry)) as Hidx.
  split; [reflexivity|]. split; [apply length_set_bucket|]. split.
  - exists (push_return p cap (raw_value entry)).
    split; [reflexivity|]. split; [eapply bucket_at_set_eq, Hslot|].
    simpl. rewrite Hp. unfold series_at. rewrite Hslot.
    destruct slot; reflexivity.
  - intros j Hj Hne. apply bucket_at_set_other; lia.
Qed.

End Store.

(** C1 as stated fails: "Stocks" and "Bonds" are distinct normalised
    labels with the same bucket index, and the observation ingested under
    "Bonds" lands in the series that "Stocks" reads. *)
Lemma collision_shares_series :
  normalize_label "Stocks" <> normalize_label "Bonds" /\
  hash "Stocks" = hash "Bonds" /\
  exists r,
    ingest Ref.atof (start_run blank_entry []) ["Stocks,0.01"; "Bonds,0.5"]%string
      = Ok r /\
    series_at (buckets r) (hash "Stocks")
      = [float_of_double (Ref.atof "0.01"); float_of_double (Ref.atof "0.5")].
Proof.
  split; [discriminate|]. split; [reflexivity|].
  eexists. split; vm_compute; reflexivity.
Qed.

(** C1, amended: an iteration of the ingestion loop appends the observation
    to the series of its label's bucket index and changes no other slot of
    the table, so labels with different bucket indices keep separate series
    (the table is keyed by the index alone). *)
Theorem ingest_touches_one_bucket (atof : string -> spec_float)
    (r r' : Run) (buffer : string) :
  ingest_line atof r buffer = Ok r' ->
  exists entry,
    load atof buffer (current_entry r) = Ok entry /\
    series_at (buckets r') (hash (raw_type entry))
    = series_at (buckets r) (hash (raw_type entry)) ++ [raw_value entry] /\
    forall other : string, hash other <> hash (raw_type entry) ->
      bucket_at (buckets r') (hash other) = bucket_at (buckets r) (hash other) /\
      series_at (buckets r') (hash other) = series_at (buckets r) (hash other).
Proof.
  intros H.
  destruct (ingest_line_Ok atof r r' buffer H)
    as (entry & Hload & _ & _ & (p & _ & Hat & Hret) & Hother).
  exists entry. split; [exact Hload|]. split.
  - unfold series_at at 1. rewrite Hat. exact Hret.
  - intros other Hne.
    assert (E : bucket_at (buckets r') (hash other) = bucket_at (buckets r) (hash other)).
    { apply Hother; [apply hash_range | exact Hne]. }
    split; [exact E|]. unfold series_at. rewrite E. reflexivity.
Qed.

Lemma ingest_touches_one_bucket_witness :
  exists r',
    ingest_line Ref.atof (start_run blank_entry []) "Stocks,0.01" = Ok r' /\
    series_at (buckets r') (hash "Stocks") = [float_of_double (Ref.atof "0.01")] /\
    bucket_at (buckets r') (hash "Gold") = Some None.
Proof.
  eexists. split; [vm_compute; reflexivity|].
  destruct (ingest_touches_one_bucket Ref.atof (start_run blank_entry [])
              _ "Stocks,0.01" eq_refl) as (entry & Hload & Hs & Ho).
  injection Hload as <-.
  split; [exact Hs|].
  destruct (Ho "Gold"%string) as [Hb _]; [vm_compute; discriminate|].
  exact Hb.
Defined.

(** ** Label normalisation *)

Lemma toupper_upper_ascii (c : ascii) :
  toupper (int_of_char (upper_ascii c)) = toupper (int_of_char c).
Proof. destruct c as [[] [] [] [] [] [] [] []]; reflexivity. Qed.

Lemma is_crlf_upper_ascii (c : ascii) : is_crlf (upper_ascii c) = is_crlf c.
Proof. destruct c as [[] [] [] [] [] [] [] []]; reflexivity. Qed.

Lemma hash_step_upper (total : Z) (c : ascii) :
  hash_step total (upper_ascii c) = hash_step total c.
Proof. unfold hash_step. rewrite toupper_upper_ascii. reflexivity. Qed.

Lemma hash_fold_case (s : string) : hash (fold_case s) = hash s.
Proof.
  unfold hash.
  assert (E : forall t, hash_loop (fold_case s) t = hash_loop s t).
  { induction s as [|c s IH]; intros t; simpl; [reflexivity|].
    rewrite hash_step_upper. apply IH. }
  rewrite E. reflexivity.
Qed.

Lemma cut_crlf_cons (c : ascii) (s : string) :
  cut_crlf (String c s) = if is_crlf c then EmptyString else String c (cut_crlf s).
Proof.
  unfold cut_crlf. simpl. destruct (is_crlf c); [reflexivity|].
  destruct (span_until is_crlf s). reflexivity.
Qed.

(** Cutting at the first terminator sees through the trailing ones. *)
Lemma cut_crlf_strip (s : string) : cut_crlf (strip_trailing s) = cut_crlf s.
Proof.
  induction s as [|c s IH]; [reflexivity|].
  rewrite cut_crlf_cons. simpl.
  destruct (strip_trailing s) as [|c' s'] eqn:E.
  - destruct (is_crlf c) eqn:Ec; [reflexivity|].
    rewrite cut_crlf_cons, Ec, <- IH. reflexivity.
  - rewrite cut_crlf_cons. destruct (is_crlf c); [reflexivity|].
    rewrite IH. reflexivity.
Qed.

Lemma fold_case_cut_crlf (s : string) :
  fold_case (cut_crlf s) = cut_crlf (fold_case s).
Proof.
  induction s as [|c s IH]; [reflexivity|].
  simpl fold_case at 2. rewrite !cut_crlf_cons, is_crlf_upper_ascii.
  destruct (is_crlf c); [reflexivity|]. simpl. rewrite IH. reflexivity.
Qed.

Lemma hash_cut_normalize (l : string) :
  hash (cut_crlf l) = hash (cut_crlf (normalize_label l)).
Proof.
  unfold normalize_label.
  rewrite <- fold_case_cut_crlf, hash_fold_case, cut_crlf_strip. reflexivity.
Qed.

Lemma span_until_comma_app (l v : string) :
  comma_free l = true ->
  span_until is_comma (l ++ String ","%char v)%string = (l, String ","%char v).
Proof.
  induction l as [|c l IH]; simpl; intros H.
  - reflexivity.
  - apply andb_prop in H as [Hc Hl]. apply negb_true_iff in Hc.
    rewrite Hc, (IH Hl). reflexivity.
Qed.

Lemma strtok_label (l v : string) :
  l <> EmptyString -> comma_free l = true ->
  strtok is_comma (l ++ String ","%char v)%string = Some (l, v).
Proof.
  intros Hne Hcf. unfold strtok.
  destruct l as [|c l]; [congruence|].
  simpl in Hcf. apply andb_prop in Hcf as [Hc Hl]. apply negb_true_iff in Hc.
  simpl. rewrite Hc. simpl. rewrite Hc.
  rewrite (span_until_comma_app l v Hl). reflexivity.
Qed.

Section Labels.
Variable atof : string -> spec_float.

(** [load] on a well-formed record: the label up to its first line
    terminator, copied when it fits, and the value token read by [atof]. *)
Lemma load_record (l v tok saved : string) (data entry : RawData) :
  l <> EmptyString -> comma_free l = true ->
  strtok is_comma v = Some (tok, saved) ->
  load atof (l ++ String ","%char v)%string data = Ok entry ->
  entry = {| raw_type := cut_crlf l; raw_value := float_of_double (atof tok) |}.
Proof.
  intros Hne Hcf Hv. unfold load.
  rewrite (strtok_label l v Hne Hcf), Hv. fold (cut_crlf l).
  intros H. apply bind_Ok in H as (copied & Hc & H).
  apply strcpy20_Ok in Hc as [-> _]. injection H as <-. reflexivity.
Qed.

End Labels.

(** C6: two raw labels that differ only in letter case and trailing line
    terminators are ingested into the same bucket and the same return
    series: both observations are appended, in order, to one series. *)
Theorem labels_share_bucket_and_series (atof : string -> spec_float)
    (l1 l2 v1 v2 tok1 saved1 tok2 saved2 : string) (r r1 r2 : Run) :
  l1 <> EmptyString -> l2 <> EmptyString ->
  comma_free l1 = true -> comma_free l2 = true ->
  normalize_label l1 = normalize_label l2 ->
  strtok is_comma v1 = Some (tok1, saved1) ->
  strtok is_comma v2 = Some (tok2, saved2) ->
  ingest_line atof r (l1 ++ String ","%char v1)%string = Ok r1 ->
  ingest_line atof r1 (l2 ++ String ","%char v2)%string = Ok r2 ->
  let index := hash (raw_type (current_entry r1)) in
  hash (raw_type (current_entry r2)) = index /\
  series_at (buckets r2) index
    = series_at (buckets r) index
        ++ [float_of_double (atof tok1); float_of_double (atof tok2)].
Proof.
  intros Hn1 Hn2 Hc1 Hc2 Hnorm Hv1 Hv2 H1 H2 index.
  destruct (ingest_line_Ok atof _ _ _ H1)
    as (e1 & Hl1 & He1 & _ & (p1 & _ & Hat1 & Hret1) & _).
  destruct (ingest_line_Ok atof _ _ _ H2)
    as (e2 & Hl2 & He2 & _ & (p2 & _ & Hat2 & Hret2) & _).
  apply (load_record atof l1 v1 tok1 saved1 _ _ Hn1 Hc1 Hv1) in Hl1.
  apply (load_record atof l2 v2 tok2 saved2 _ _ Hn2 Hc2 Hv2) in Hl2.
  subst e1 e2. simpl in Hat1, Hret1, Hat2, Hret2.
  assert (Hidx : hash (cut_crlf l2) = hash (cut_crlf l1)).
  { rewrite (hash_cut_normalize l1), (hash_cut_normalize l2), Hnorm. reflexivity. }
  subst index. rewrite He1, He2. simpl. split; [exact Hidx|].
  rewrite Hidx in Hat2, Hret2.
  unfold series_at at 1. rewrite Hat2, Hret2.
  unfold series_at at 1. rewrite Hat1, Hret1.
  rewrite <- app_assoc. reflexivity.
Qed.

Lemma labels_share_bucket_and_series_witness :
  exists r1 r2 r3,
    ingest_line Ref.atof (start_run blank_entry []) "Stocks,0.01" = Ok r1 /\
    ingest_line Ref.atof r1
      ("stocks" ++ String (ascii_of_nat 13) (String (ascii_of_nat 10) ",-0.02"))%string
      = Ok r2 /\
    ingest_line Ref.atof r2 "STOCKS,0.015" = Ok r3 /\
    series_at (buckets r2) (hash "Stocks")
      = [float_of_double (Ref.atof "0.01"); float_of_double (Ref.atof "-0.02")] /\
    series_at (buckets r3) (hash "Stocks")
      = [float_of_double (Ref.atof "0.01"); float_of_double (Ref.atof "-0.02");
         float_of_double (Ref.atof "0.015")].
Proof.
  eexists. eexists. eexists. split; [vm_compute; reflexivity|].
  split; [vm_compute; reflexivity|].
  split; [vm_compute; reflexivity|].
  split; [|vm_compute; reflexivity].
  refine (proj2 (labels_share_bucket_and_series Ref.atof
    "Stocks" ("stocks" ++ String (ascii_of_nat 13) (String (ascii_of_nat 10) ""))
    "0.01" "-0.02" "0.01" "" "-0.02" ""
    (start_run blank_entry []) _ _ _ _ _ _ _ _ _ eq_refl eq_refl));
    try discriminate; reflexivity.
Defined.

(** ** Moment estimator *)

Lemma array_get_skipn (data : list spec_float) (i : nat) (x : spec_float)
    (rest : list spec_float) :
  skipn i data = x :: rest -> array_get data i = x /\ skipn (S i) data = rest.
Proof.
  revert data. induction i as [|i IH]; intros data H.
  - destruct data; simpl in H; [discriminate|]. injection H as -> ->. auto.
  - destruct data as [|y data]; [discriminate|]. simpl in H.
    destruct (IH data H) as [G1 G2]. split; [exact G1 | exact G2].
Qed.

Lemma skipn_nonempty (data : list spec_float) (i : nat) :
  (i < length data)%nat -> exists x rest, skipn i data = x :: rest.
Proof.
  intros H. destruct (skipn i data) as [|x rest] eqn:E; [|eauto].
  pose proof (length_skipn i data) as L. rewrite E in L. simpl in L. lia.
Qed.

(** The counting loop of [stand_dev] is a left fold over the squared
    deviations of the slots it visits. *)
Lemma stand_dev_loop_fold (data : list spec_float) (m : spec_float) (n i : nat)
    (total : spec_float) :
  (i + n <= length data)%nat ->
  stand_dev_loop data m n i total
    = fold_left (fun acc v => F64.add acc (double_of_float v))
        (squared_deviations (firstn n (skipn i data)) m) total.
Proof.
  revert i total. induction n as [|n IH]; intros i total H; [reflexivity|].
  destruct (skipn_nonempty data i ltac:(lia)) as (x & rest & E).
  destruct (array_get_skipn data i x rest E) as [Hx Hrest].
  simpl stand_dev_loop. rewrite IH by lia.
  rewrite Hx, Hrest, E. reflexivity.
Qed.

(** C7: [mean] of an empty series is 0; [stand_dev] of fewer than two
    observations is 0; from two observations on, [stand_dev] is the
    Bessel-corrected sample deviation: the squared deviations from the
    supplied mean, summed and divided by [count - 1]. *)
Theorem moment_edge_cases_and_bessel :
  (forall data, mean data 0 = S754_zero false) /\
  (forall data count m, count < 2 -> stand_dev data count m = S754_zero false) /\
  (forall data count m, 2 <= count <= Z.of_nat (length data) ->
     stand_dev data count m
       = sample_std_dev (firstn (Z.to_nat count) data) m) /\
  (forall series m, (2 <= length series)%nat ->
     stand_dev series (Z.of_nat (length series)) m
       = float_of_double
           (F64.sqrt
              (F64.div (sum_double (squared_deviations series m))
                       (F64.of_Z (Z.of_nat (length series) - 1))))).
Proof.
  assert (G : forall data count m, 2 <= count <= Z.of_nat (length data) ->
     stand_dev data count m = sample_std_dev (firstn (Z.to_nat count) data) m).
  { intros data count m H. unfold stand_dev, sample_std_dev, sum_double.
    destruct (Z.ltb_spec count 2); [lia|].
    rewrite stand_dev_loop_fold by (simpl; lia).
    rewrite length_firstn, Nat.min_l by lia.
    rewrite Z2Nat.id by lia. reflexivity. }
  split; [reflexivity|]. split.
  - intros data count m H. unfold stand_dev.
    destruct (Z.ltb_spec count 2); [reflexivity | lia].
  - split; [exact G|].
    intros series m H. rewrite G by lia.
    rewrite Nat2Z.id, firstn_all. reflexivity.
Qed.

Lemma moment_edge_cases_and_bessel_witness :
  mean [] 0 = S754_zero false /\
  stand_dev [one_percent] 1 one_percent = S754_zero false /\
  stand_dev [F32.of_Z 1; F32.of_Z 2; F32.of_Z 4] 3 (F32.of_Z 2)
  = sample_std_dev [F32.of_Z 1; F32.of_Z 2; F32.of_Z 4] (F32.of_Z 2).
Proof.
  destruct moment_edge_cases_and_bessel as (H0 & H1 & H2 & _).
  split; [apply H0|]. split; [apply H1; lia|].
  apply (H2 [F32.of_Z 1; F32.of_Z 2; F32.of_Z 4] 3 (F32.of_Z 2)).
  simpl. lia.
Defined.

(** ** Analytic tail estimator *)

(** C9: the analytic VaR stored by [rieman] is a function of the mean and
    the deviation alone; the [data] array (and the portfolio written to)
    have no influence on it. *)
Theorem rieman_ignores_data (expf : spec_float -> spec_float) (fuel : nat)
    (data1 data2 : list spec_float) (mean deviation : spec_float)
    (adress1 adress2 : Portfolio) :
  option_map worst_case_rieman (rieman expf fuel data1 mean deviation adress1)
  = option_map worst_case_rieman (rieman expf fuel data2 mean deviation adress2).
Proof.
  unfold rieman.
  destruct (rieman_loop expf fuel mean deviation _ _); reflexivity.
Qed.

Section Rieman.
Variable expf : spec_float -> spec_float.
Variables mean deviation : spec_float.

Lemma rieman_loop_S (fuel : nat) (x bucket : spec_float) :
  rieman_loop expf (S fuel) mean deviation x bucket
  = if below_target bucket
    then rieman_loop expf fuel mean deviation (F32.add x step_size)
           (F32.add bucket (F32.mul (height expf mean deviation x) step_size))
    else Some x.
Proof. reflexivity. Qed.

Lemma loop_at_S (fuel k : nat) :
  loop_at expf mean deviation (S fuel) k
  = if below_target (riemann_sum expf mean deviation k)
    then loop_at expf mean deviation fuel (S k)
    else Some (grid mean deviation k).
Proof. reflexivity. Qed.

(** The loop leaves at the first later grid point whose mass is not below
    the target. *)
Lemma rieman_loop_crossing (fuel k : nat) (x : spec_float) :
  loop_at expf mean deviation fuel k = Some x ->
  exists n, (k <= n < k + fuel)%nat /\ x = grid mean deviation n /\
            below_target (riemann_sum expf mean deviation n) = false /\
            forall j, (k <= j < n)%nat ->
              below_target (riemann_sum expf mean deviation j) = true.
Proof.
  revert k. induction fuel as [|fuel IH]; intros k H; [discriminate|].
  rewrite loop_at_S in H.
  destruct (below_target (riemann_sum expf mean deviation k)) eqn:Hb.
  - destruct (IH (S k) H) as (n & Hn & Hx & Hstop & Hbefore).
    exists n. split; [lia|]. split; [exact Hx|]. split; [exact Hstop|].
    intros j Hj. destruct (Nat.eq_dec j k) as [->|]; [exact Hb|].
    apply Hbefore. lia.
  - injection H as <-. exists k. split; [lia|]. split; [reflexivity|].
    split; [exact Hb|]. intros j Hj. lia.
Qed.

Lemma rieman_loop_reaches (n k : nat) :
  below_target (riemann_sum expf mean deviation (k + n)) = false ->
  exists x, forall fuel, (n < fuel)%nat -> loop_at expf mean deviation fuel k = Some x.
Proof.
  revert k. induction n as [|n IH]; intros k H.
  - rewrite Nat.add_0_r in H. exists (grid mean deviation k).
    intros [|fuel] Hf; [lia|]. rewrite loop_at_S, H. reflexivity.
  - destruct (below_target (riemann_sum expf mean deviation k)) eqn:Hb.
    + destruct (IH (S k)) as (x & Hx).
      { rewrite <- H. f_equal. f_equal. lia. }
      exists x. intros [|fuel] Hf; [lia|].
      rewrite loop_at_S, Hb. apply (Hx fuel). lia.
    + exists (grid mean deviation k). intros [|fuel] Hf; [lia|].
      rewrite loop_at_S, Hb. reflexivity.
Qed.

(** When the entry state is a fixed point of the loop body and below the
    target, no amount of fuel lets the loop leave. *)
Lemma rieman_loop_stuck (x bucket : spec_float) :
  below_target bucket = true ->
  F32.add bucket (F32.mul (height expf mean deviation x) step_size) = bucket ->
  F32.add x step_size = x ->
  forall fuel, rieman_loop expf fuel mean deviation x bucket = None.
Proof.
  intros Hb Hbucket Hx. induction fuel as [|fuel IH]; [reflexivity|].
  rewrite rieman_loop_S, Hb, Hbucket, Hx. exact IH.
Qed.

Lemma rieman_unfold (fuel : nat) (data : list spec_float) (adress : Portfolio) :
  rieman expf fuel data mean deviation adress
  = match loop_at expf mean deviation fuel 0 with
    | Some x => Some (set_worst_case_rieman adress x)
    | None => None
    end.
Proof. reflexivity. Qed.

End Rieman.

(** C2 as stated fails: with deviation [FLT_MAX] (finite and positive) the
    scan starts at minus infinity, every rectangle has height 0, and the
    loop, which has no iteration cap, never leaves. *)
Lemma rieman_diverges_at_FLT_MAX :
  F32.valid FLT_MAX = true /\ F32.ltb F32.zero FLT_MAX = true /\
  diverges Ref.expf F32.zero FLT_MAX.
Proof.
  split; [reflexivity|]. split; [reflexivity|].
  intros fuel data adress.
  assert (E : rieman_loop Ref.expf fuel F32.zero FLT_MAX
                (S754_infinity true) (S754_zero false) = None).
  { apply rieman_loop_stuck; vm_compute; reflexivity. }
  unfold rieman.
  replace (F32.sub F32.zero (F32.mul (F32.of_Z 5) FLT_MAX))
    with (S754_infinity true) by (vm_compute; reflexivity).
  replace (F32.of_Z 0) with (S754_zero false) by (vm_compute; reflexivity).
  rewrite E. reflexivity.
Qed.

(** C2, amended: [rieman] has no iteration cap; it returns exactly when,
    after finitely many steps, the accumulated mass is no longer below the
    target. *)
Theorem rieman_terminates_iff_mass_reached (expf : spec_float -> spec_float)
    (data : list spec_float) (mean deviation : spec_float) (adress : Portfolio) :
  (exists fuel p, rieman expf fuel data mean deviation adress = Some p) <->
  (exists n, below_target (riemann_sum expf mean deviation n) = false).
Proof.
  split.
  - intros (fuel & p & H). rewrite rieman_unfold in H.
    destruct (loop_at expf mean deviation fuel 0) as [x|] eqn:E; [|discriminate].
    destruct (rieman_loop_crossing expf mean deviation fuel 0 x E)
      as (n & _ & _ & Hstop & _).
    exists n. exact Hstop.
  - intros (n & Hn).
    destruct (rieman_loop_reaches expf mean deviation n 0 Hn) as (x & Hx).
    exists (S n), (set_worst_case_rieman adress x).
    rewrite rieman_unfold, (Hx (S n)) by lia. reflexivity.
Qed.

(** *** The loop is the specification's rectangle sum *)

(** The literals are the nearest binary32 or binary64 numbers to 0.0001 and
    0.05, and [inv_sqrt_two_pi] squared times [2 pi] is 1 to within a few
    parts in a million (3.14159 < pi < 3.14160). *)
Lemma spec_constants :
  match spec_step with
  | S754_finite false m e => 2 * Z.abs (10000 * Zpos m - 2 ^ (- e)) <= 10000
  | _ => False
  end /\
  match spec_target_mass with
  | S754_finite false m e => 2 * Z.abs (100 * Zpos m - 5 * 2 ^ (- e)) <= 100
  | _ => False
  end /\
  match inv_sqrt_two_pi with
  | S754_finite false m e =>
      Zpos m * Zpos m * 2 * 314159 < 100000 * 2 ^ (- 2 * e)
      < Zpos m * Zpos m * 2 * 314160
  | _ => False
  end /\
  match minus_half with
  | S754_finite true m e => 2 * Zpos m = 2 ^ (- e)
  | _ => False
  end.
Proof. vm_compute. repeat split; discriminate. Qed.





Section Scan.
Variable expf : spec_float -> spec_float.
Variables mean deviation : spec_float.







End Scan.



(** ** Outcomes of the analysis request *)

Section Outcomes.
Variable atof : string -> spec_float.
Variables expf logf cosf sinf : spec_float -> spec_float.
Variable rand : nat -> Z.
Variable RAND_MAX : Z.
Variable qsort :
  (spec_float -> spec_float -> Z) -> list spec_float -> list spec_float.

Lemma ingest_length (lines : list string) (r r' : Run) :
  ingest atof r lines = Ok r' -> length (buckets r') = length (buckets r).
Proof.
  revert r. induction lines as [|buffer lines IH]; intros r H; simpl in H.
  - injection H as <-. reflexivity.
  - apply bind_Ok in H as (r1 & E & H). rewrite (IH r1 H).
    destruct (ingest_line_Ok atof r r1 buffer E) as (_ & _ & _ & Hlen & _).
    exact Hlen.
Qed.

Lemma ingest_line_in_table (r : Run) (buffer : string) :
  length (buckets r) = Z.to_nat TABLE_SIZE ->
  ingest_line atof r buffer <> Fault OutOfTable.
Proof.
  intros Hlen. unfold ingest_line.
  destruct (load atof buffer (current_entry r)) as [entry|c|c] eqn:Hload;
    simpl; [|discriminate|].
  - destruct (bucket_at_Some (buckets r) (hash (raw_type entry)) Hlen
                (hash_range _)) as (slot & Hs & _).
    unfold read_bucket. rewrite Hs. simpl.
    assert (Hf : forall h,
              find_or_create slot (raw_type entry) h <> Fault OutOfTable).
    { intros h. unfold find_or_create. destruct slot as [p|]; [discriminate|].
      unfold create_bucket.
      destruct (alloc h) as [[] h1]; simpl; [|discriminate].
      destruct (alloc h1) as [[] h2]; simpl; [|discriminate].
      unfold strcpy20. destruct (20 <=? _); simpl; discriminate. }
    specialize (Hf (heap r)).
    destruct (find_or_create slot (raw_type entry) (heap r)) as [[p h]|c|c];
      simpl; [|discriminate|congruence].
    unfold append_entry. destruct (capacity p <=? day_count p); [|discriminate].
    destruct (alloc h) as [[] h1]; discriminate.
  - unfold load in Hload.
    destruct (strtok is_comma buffer) as [[type saved]|]; [|discriminate].
    destruct (strtok is_comma saved) as [[return_str saved']|]; [|discriminate].
    unfold strcpy20 in Hload. destruct (20 <=? _); simpl in Hload; congruence.
Qed.

(** The ingestion loop never indexes outside the table. *)
Lemma ingest_no_fault (lines : list string) (r : Run) :
  length (buckets r) = Z.to_nat TABLE_SIZE ->
  ingest atof r lines <> Fault OutOfTable.
Proof.
  revert r. induction lines as [|buffer lines IH]; intros r Hlen; simpl.
  - discriminate.
  - pose proof (ingest_line_in_table r buffer Hlen) as Hline.
    destruct (ingest_line atof r buffer) as [r1|c|c] eqn:E; simpl;
      [|discriminate|congruence].
    apply IH.
    destruct (ingest_line_Ok atof r r1 buffer E) as (_ & _ & _ & Hl & _).
    rewrite Hl. exact Hlen.
Qed.

Lemma find_or_create_ok (n : Z) (slot : option Portfolio) (type : string)
    (h h' : Heap) (p : Portfolio) :
  0 <= n -> (forall q, slot = Some q -> series_ok n q) ->
  find_or_create slot type h = Ok (p, h') -> series_ok n p.
Proof.
  unfold find_or_create. destruct slot as [q|]; intros Hn Hq H.
  - injection H as <- _. apply Hq. reflexivity.
  - apply bind_Ok in H as ([created h1] & Hc & H).
    destruct created as [q|]; [|discriminate]. injection H as <- _.
    unfold create_bucket in Hc.
    destruct (alloc h) as [[] h2]; simpl in Hc; [|discriminate].
    destruct (alloc h2) as [[] h3]; simpl in Hc; [|discriminate].
    apply bind_Ok in Hc as (copied & _ & Hc). injection Hc as <- _.
    unfold series_ok. simpl. lia.
Qed.

Lemma append_entry_ok (n : Z) (b b' : Table) (index : Z) (p : Portfolio)
    (v : spec_float) (h h' : Heap) :
  series_ok n p -> table_ok n b ->
  append_entry b index p v h = Ok (b', h') -> table_ok (n + 1) b'.
Proof.
  intros (Hcount & Hcap & Hmin & Hn & Hmax) Hb H.
  assert (G : forall cap, day_count p + 1 <= cap -> 50 <= cap ->
                cap <= Z.max 50 (2 * (day_count p + 1)) ->
                table_ok (n + 1) (set_bucket b index (push_return p cap v))).
  { intros cap H1 H2 H3 i q Hq. unfold set_bucket, Table in Hq.
    destruct (decide (i = Z.to_nat index)) as [->|Hne].
    - destruct (b !! Z.to_nat index) as [slot|] eqn:E.
      + rewrite list_lookup_insert_eq in Hq by (eapply lookup_lt_Some, E).
        injection Hq as <-. unfold series_ok. simpl.
        rewrite length_app. simpl. lia.
      + apply lookup_ge_None in E.
        rewrite list_insert_ge in Hq by exact E.
        apply lookup_lt_Some in Hq. lia.
    - rewrite list_lookup_insert_ne in Hq by congruence.
      destruct (Hb i q Hq) as (? & ? & ? & ? & ?). unfold series_ok. lia. }
  unfold append_entry in H.
  destruct (Z.leb_spec (capacity p) (day_count p)).
  - destruct (alloc h) as [[] h1]; simpl in H; [|discriminate].
    injection H as <- _. apply G; lia.
  - injection H as <- _. apply G; lia.
Qed.

Lemma ingest_line_table_ok (n : Z) (r r' : Run) (buffer : string) :
  0 <= n -> table_ok n (buckets r) -> ingest_line atof r buffer = Ok r' ->
  table_ok (n + 1) (buckets r').
Proof.
  intros Hn Hok H. unfold ingest_line in H.
  apply bind_Ok in H as (entry & _ & H). cbv zeta in H.
  apply bind_Ok in H as (slot & Hslot & H). apply read_bucket_Ok in Hslot.
  apply bind_Ok in H as ([p h] & Hp & H).
  apply bind_Ok in H as ([b h1] & Hb & H). injection H as <-. simpl.
  apply bucket_at_lookup in Hslot as [_ Hl].
  assert (Hseries : series_ok n p).
  { apply (find_or_create_ok n slot _ _ _ _ Hn) with (2 := Hp).
    intros q Hq. subst slot. exact (Hok _ _ Hl). }
  exact (append_entry_ok _ _ _ _ _ _ _ _ Hseries Hok Hb).
Qed.

Lemma ingest_table_ok (lines : list string) (n : Z) (r r' : Run) :
  0 <= n -> table_ok n (buckets r) -> ingest atof r lines = Ok r' ->
  table_ok (n + Z.of_nat (length lines)) (buckets r').
Proof.
  revert n r. induction lines as [|buffer lines IH]; intros n r Hn Hok H;
    simpl in H.
  - injection H as <-. simpl. rewrite Z.add_0_r. exact Hok.
  - apply bind_Ok in H as (r1 & E & H).
    replace (n + Z.of_nat (length (buffer :: lines)))
      with (n + 1 + Z.of_nat (length lines)) by (simpl length; lia).
    apply (IH (n + 1) r1); [lia| |exact H].
    apply (ingest_line_table_ok n r r1 buffer Hn Hok E).
Qed.

Lemma main_after_ingest (fuel : nat) (lines : list string) (target : string)
    (entry0 : RawData) (h : Heap) (r : Run) :
  ingest atof (start_run entry0 h) lines = Ok r ->
  main atof expf logf cosf sinf rand RAND_MAX qsort fuel 3 (Some lines)
    target entry0 h
  = analyse_target expf logf cosf sinf rand RAND_MAX qsort fuel
      (buckets r) (heap r) target.
Proof.
  intros H. unfold main. simpl negb. cbv iota.
  unfold start_run in H. rewrite H. reflexivity.
Qed.

End Outcomes.

(** X2: Every series in the table ingestion leaves counts exactly its stored
    observations, at most one for each line read, and holds them within its
    allocated capacity: the write [returns[day_count]] stays inside the
    allocation, and the capacity is the initial 50 or at most twice the
    count. *)
Theorem ingest_keeps_series_within_capacity (atof : string -> spec_float)
    (entry0 : RawData) (h : Heap) (lines : list string) (r : Run) :
  ingest atof (start_run entry0 h) lines = Ok r ->
  forall index p, bucket_at (buckets r) index = Some (Some p) ->
    day_count p = Z.of_nat (length (returns p)) /\
    day_count p <= capacity p /\ 50 <= capacity p /\
    day_count p <= Z.of_nat (length lines) /\
    capacity p <= Z.max 50 (2 * day_count p).
Proof.
  intros H index p Hp. apply bucket_at_lookup in Hp as [_ Hl].
  refine (ingest_table_ok atof lines 0 _ r (Z.le_refl 0) _ H _ p Hl).
  intros i q Hq. unfold start_run, empty_table in Hq. cbn [buckets] in Hq.
  apply lookup_replicate in Hq as [Hq _]. discriminate.
Qed.

Lemma ingest_keeps_series_within_capacity_witness :
  day_count two_lines_bucket = Z.of_nat (length (returns two_lines_bucket)) /\
  day_count two_lines_bucket <= capacity two_lines_bucket /\
  50 <= capacity two_lines_bucket /\
  day_count two_lines_bucket <= Z.of_nat (length two_lines) /\
  capacity two_lines_bucket <= Z.max 50 (2 * day_count two_lines_bucket).
Proof.
  apply (ingest_keeps_series_within_capacity Ref.atof blank_entry [] two_lines
           two_lines_run eq_refl (hash "STOCKS")).
  reflexivity.
Defined.

(** C10: for every string, [hash] returns an index between 0 and
    [TABLE_SIZE - 1] = 10, the accumulator wrapping around in the [long]
    range; so in a table of [TABLE_SIZE] slots the read and the write of
    [buckets[hash type]] are inside the array, and neither the ingestion
    loop nor the rest of [main] indexes outside it. *)
Theorem hash_index_in_bounds :
  (forall type : string,
     0 <= hash type <= 10 /\ - 2 ^ 63 <= hash_loop type 5381 < 2 ^ 63) /\
  (forall (b : Table) (type : string), length b = Z.to_nat TABLE_SIZE ->
     bucket_at b (hash type) <> None /\
     forall p, bucket_at (set_bucket b (hash type) p) (hash type) = Some (Some p)) /\
  (forall atof entry0 h lines,
     ingest atof (start_run entry0 h) lines <> Fault OutOfTable) /\
  (forall atof expf logf cosf sinf rand RAND_MAX qsort fuel argc file target
          entry0 h o,
     main atof expf logf cosf sinf rand RAND_MAX qsort fuel argc file target
       entry0 h = Some o ->
     exit o <> Crashed OutOfTable).
Proof.
  split; [|split; [|split]].
  - intros type. pose proof (hash_range type) as Hr. unfold TABLE_SIZE in Hr.
    split; [lia|].
    assert (G : forall s t, - 2 ^ 63 <= t < 2 ^ 63 ->
                  - 2 ^ 63 <= hash_loop s t < 2 ^ 63).
    { induction s as [|c s IH]; intros t Ht; simpl; [exact Ht|].
      apply IH. unfold hash_step. apply wrap_long_range. }
    apply G. lia.
  - intros b type Hlen. split.
    + destruct (bucket_at_Some b (hash type) Hlen (hash_range type))
        as (slot & -> & _). discriminate.
    + intros p. apply bucket_at_set_same; [exact Hlen | apply hash_range].
  - intros atof entry0 h lines. apply ingest_no_fault. reflexivity.
  - intros atof expf logf cosf sinf rand RAND_MAX qsort fuel argc file target
      entry0 h o Hmain.
    unfold main in Hmain.
    destruct (negb (argc =? 3)).
    { injection Hmain as <-. discriminate. }
    destruct file as [lines|]; [|injection Hmain as <-; discriminate].
    pose proof (ingest_no_fault atof lines
                  {| buckets := empty_table; current_entry := entry0;
                     heap := snd (alloc h) |} eq_refl) as Hnf.
    destruct (ingest atof _ lines) as [r|c|c] eqn:Hing.
    + assert (Hlen : length (buckets r) = Z.to_nat TABLE_SIZE).
      { rewrite (ingest_length atof lines _ r Hing). reflexivity. }
      destruct (bucket_at_Some (buckets r) (hash target) Hlen (hash_range _))
        as (slot & Hs & _).
      unfold analyse_target in Hmain. rewrite Hs in Hmain.
      destruct slot as [p|]; [|injection Hmain as <-; discriminate].
      cbv zeta in Hmain.
      destruct (F64.eqb _ F64.zero); [injection Hmain as <-; discriminate|].
      destruct (synth_data_generator _ _ _ _ _ _ _ _) as [[temp_data|] h1].
      * destruct (analyze qsort temp_data _) as [sorted p1].
        destruct (rieman expf fuel _ _ _ p1) as [p2|]; [|discriminate].
        destruct (send2python (Some p2) target) as [test printed].
        injection Hmain as <-. discriminate.
      * injection Hmain as <-. discriminate.
    + injection Hmain as <-. discriminate.
    + injection Hmain as <-. simpl. congruence.
Qed.

Lemma hash_index_in_bounds_witness :
  hash "Stocks" = 7 /\
  bucket_at empty_table (hash "Stocks") <> None /\
  bucket_at (set_bucket empty_table (hash "Stocks") blank_portfolio) (hash "Stocks")
  = Some (Some blank_portfolio).
Proof.
  destruct hash_index_in_bounds as (_ & H & _).
  destruct (H empty_table "Stocks"%string eq_refl) as [Hread Hwrite].
  split; [reflexivity|]. split; [exact Hread | apply Hwrite].
Defined.

Lemma send2python_returns_0 (p : Portfolio) (user_query : string) :
  fst (send2python (Some p) user_query) = 0.
Proof.
  unfold send2python.
  destruct (F32.ltb (worst_case p) (worst_case_rieman p)); reflexivity.
Qed.

(** C5 as stated fails: "Bonds" is never ingested, yet a request for it
    ends with the degenerate-data code 2 (the series of "Stocks", which has
    the same bucket index, is analysed), not with the not-found code 3. *)
Lemma uningested_target_reported_degenerate :
  normalize_label "Bonds" <> normalize_label "Stocks" /\
  option_map exit
    (main Ref.atof Ref.expf Ref.logf Ref.cosf Ref.sinf Ref.rand Ref.RAND_MAX
       Ref.qsort 0 3 (Some ["Stocks,0.01"; "Stocks,0.01"]%string) "Bonds"
       blank_entry [])
  = Some (Exited 2).
Proof. split; [discriminate | vm_compute; reflexivity]. Qed.

(** C5, amended: after ingestion, a target whose bucket index holds no
    portfolio ends the run with code 3, and a target whose bucket's series
    has standard deviation 0 ends it with code 2, before the sampler and
    both tail estimators: no stage is called, nothing is printed, and the
    bucket keeps its VaR fields.  Any other run ends with neither code. *)
Theorem target_outcomes (atof : string -> spec_float)
    (expf logf cosf sinf : spec_float -> spec_float) (rand : nat -> Z)
    (RAND_MAX : Z)
    (qsort : (spec_float -> spec_float -> Z) -> list spec_float -> list spec_float)
    (fuel : nat) (lines : list string) (target : string) (entry0 : RawData)
    (h : Heap) (r : Run) :
  ingest atof (start_run entry0 h) lines = Ok r ->
  let run := main atof expf logf cosf sinf rand RAND_MAX qsort fuel 3
               (Some lines) target entry0 h in
  match bucket_at (buckets r) (hash target) with
  | None => False
  | Some None =>
      run = Some {| exit := Exited 3; stdout := []; calls := [];
                    final_buckets := buckets r |}
  | Some (Some p) =>
      let average := mean (returns p) (day_count p) in
      let sdev := stand_dev (returns p) (day_count p) average in
      if F64.eqb (double_of_float sdev) F64.zero then
        run = Some {| exit := Exited 2; stdout := []; calls := [];
                      final_buckets :=
                        set_bucket (buckets r) (hash target) (set_mean p average) |}
        /\ worst_case (set_mean p average) = worst_case p
        /\ worst_case_rieman (set_mean p average) = worst_case_rieman p
      else
        forall o, run = Some o ->
          exit o <> Exited 2 /\ exit o <> Exited 3 /\ calls o <> []
  end.
Proof.
  intros H run. subst run.
  rewrite (main_after_ingest atof expf logf cosf sinf rand RAND_MAX qsort
             fuel lines target entry0 h r H).
  assert (Hlen : length (buckets r) = Z.to_nat TABLE_SIZE).
  { rewrite (ingest_length atof lines _ r H). reflexivity. }
  destruct (bucket_at_Some (buckets r) (hash target) Hlen (hash_range _))
    as (slot & Hs & _).
  unfold analyse_target. rewrite Hs.
  destruct slot as [p|]; [|reflexivity].
  change (returns (set_mean p (mean (returns p) (day_count p)))) with (returns p).
  change (day_count (set_mean p (mean (returns p) (day_count p)))) with (day_count p).
  cbv zeta.
  destruct (F64.eqb _ F64.zero); [auto|].
  intros o Ho.
  destruct (synth_data_generator _ _ _ _ _ _ _ _) as [[temp_data|] h1].
  - destruct (analyze qsort temp_data _) as [sorted p1].
    destruct (rieman expf fuel _ _ _ p1) as [p2|]; [|discriminate].
    pose proof (send2python_returns_0 p2 target) as Hsend.
    destruct (send2python (Some p2) target) as [test printed].
    simpl in Hsend. subst test.
    injection Ho as <-. simpl. repeat split; discriminate.
  - injection Ho as <-. simpl. repeat split; discriminate.
Qed.

Lemma target_outcomes_witness :
  ingest Ref.atof (start_run blank_entry []) two_lines = Ok two_lines_run /\
  bucket_at (buckets two_lines_run) (hash "STOCKS") = Some (Some two_lines_bucket) /\
  main Ref.atof Ref.expf Ref.logf Ref.cosf Ref.sinf Ref.rand Ref.RAND_MAX
    Ref.qsort 0 3 (Some two_lines) "STOCKS" blank_entry []
  = Some {| exit := Exited 2; stdout := []; calls := [];
            final_buckets :=
              set_bucket (buckets two_lines_run) (hash "STOCKS")
                (set_mean two_lines_bucket
                   (mean (returns two_lines_bucket) (day_count two_lines_bucket))) |}.
Proof.
  assert (Hr : ingest Ref.atof (start_run blank_entry []) two_lines
               = Ok two_lines_run) by (vm_compute; reflexivity).
  assert (Hb : bucket_at (buckets two_lines_run) (hash "STOCKS")
               = Some (Some two_lines_bucket)) by (vm_compute; reflexivity).
  pose proof (target_outcomes Ref.atof Ref.expf Ref.logf Ref.cosf Ref.sinf
                Ref.rand Ref.RAND_MAX Ref.qsort 0 two_lines "STOCKS"
                blank_entry [] two_lines_run Hr) as H.
  cbv zeta in H. rewrite Hb in H. cbv beta iota in H.
  match type of H with
  | (if ?c then _ else _) =>
      assert (Hz : c = true) by (vm_compute; reflexivity); rewrite Hz in H
  end.
  split; [exact Hr|]. split; [exact Hb|]. exact (proj1 H).
Defined.

(** ** Monte Carlo tail estimator *)

(** *** Insertion sort does what [qsort] is assumed to do *)

Section Sorting.
Variable cmp : spec_float -> spec_float -> Z.

Lemma insert_perm (x : spec_float) (l : list spec_float) :
  Permutation (x :: l) (Ref.insert cmp x l).
Proof.
  induction l as [|y l IH]; simpl; [reflexivity|].
  destruct (cmp x y <=? 0); [reflexivity|].
  rewrite perm_swap. apply perm_skip, IH.
Qed.

Lemma qsort_perm (l : list spec_float) : Permutation l (Ref.qsort cmp l).
Proof.
  induction l as [|x l IH]; simpl; [reflexivity|].
  rewrite <- insert_perm. apply perm_skip, IH.
Qed.

End Sorting.

Lemma StronglySorted_lookup {A : Type} (R : A -> A -> Prop) (l : list A) :
  StronglySorted R l ->
  forall i j x y, (i < j)%nat -> l !! i = Some x -> l !! j = Some y -> R x y.
Proof.
  induction 1 as [|a l Hs IH Ha]; intros i j x y Hij Hi Hj.
  - discriminate.
  - destruct j as [|j]; [lia|]. simpl in Hj. destruct i as [|i].
    + injection Hi as <-. rewrite List.Forall_forall in Ha. apply Ha.
      rewrite <- list_elem_of_In. eapply list_elem_of_lookup_2, Hj.
    + simpl in Hi. apply (IH i j); [lia | assumption..].
Qed.

Section Ordering.
Variable cmp : spec_float -> spec_float -> Z.

Lemma orders_perm (l l' : list spec_float) :
  Permutation l l' -> orders cmp l -> orders cmp l'.
Proof.
  intros Hp (H1 & H2 & H3 & H4).
  assert (Hin : forall x, In x l' -> In x l)
    by (intros x; apply Permutation_in; symmetry; exact Hp).
  repeat split; intros; eauto.
Qed.

Lemma orders_tail (a : spec_float) (l : list spec_float) :
  orders cmp (a :: l) -> orders cmp l.
Proof.
  intros (H1 & H2 & H3 & H4).
  repeat split; intros; eauto using in_cons.
Qed.

Lemma insert_in_order (a : spec_float) (s : list spec_float) :
  orders cmp (a :: s) ->
  StronglySorted (fun x y => ~ cmp y x < 0) s ->
  StronglySorted (fun x y => ~ cmp y x < 0) (Ref.insert cmp a s).
Proof.
  induction s as [|y s IH]; intros Ho Hs; simpl.
  - constructor; constructor.
  - apply StronglySorted_inv in Hs as [Hs Hy].
    destruct Ho as (H1 & H2 & H3 & H4).
    destruct (Z.leb_spec (cmp a y) 0) as [Hle|Hgt].
    + assert (Hya : ~ cmp y a < 0).
      { apply H4; [left; reflexivity|right; left; reflexivity|exact Hle]. }
      constructor; [constructor; assumption|].
      constructor; [exact Hya|].
      rewrite !List.Forall_forall in *. intros z Hz Hza.
      destruct (H3 z y a) as [H|H]; auto.
      * right. right. exact Hz.
      * right. left. reflexivity.
      * left. reflexivity.
      * exact (Hy z Hz H).
    + constructor.
      * apply IH; [|exact Hs].
        apply orders_tail with y.
        apply (orders_perm (a :: y :: s)); [apply perm_swap|].
        repeat split; assumption.
      * eapply Permutation_Forall; [apply insert_perm|].
        constructor; [lia|exact Hy].
Qed.

Lemma qsort_in_order (l : list spec_float) :
  orders cmp l ->
  StronglySorted (fun x y => ~ cmp y x < 0) (Ref.qsort cmp l).
Proof.
  induction l as [|a l IH]; intros Ho; simpl; [constructor|].
  apply insert_in_order.
  - eapply orders_perm; [|exact Ho]. apply perm_skip, qsort_perm.
  - apply IH. eapply orders_tail, Ho.
Qed.

End Ordering.

Lemma ref_qsort_orders : qsort_orders Ref.qsort.
Proof.
  intros cmp l Ho. split; [apply qsort_perm|].
  exact (StronglySorted_lookup (fun x y => ~ cmp y x < 0) _
           (qsort_in_order cmp l Ho)).
Qed.

(** *** [compare] and the stored percentile *)

Lemma compare_cases (x y : spec_float) :
  (SFltb x y = true /\ compare x y = -1) \/ (SFltb x y = false /\ compare x y = 1).
Proof.
  unfold compare, F32.ltb. destruct (SFltb x y); [left; auto|].
  right. split; [reflexivity|]. destruct (SFltb y x); reflexivity.
Qed.

(** X1: [compare] never answers 0: two values that compare equal as floats
    are each reported greater than the other. *)
Theorem compare_never_zero (x y : spec_float) :
  compare x y <> 0 /\
  (SFeqb x y = true -> compare x y = 1 /\ compare y x = 1).
Proof.
  split.
  - destruct (compare_cases x y) as [[_ ->]|[_ ->]]; discriminate.
  - intros He. unfold SFeqb in He.
    assert (Hxy : SFltb x y = false).
    { unfold SFltb. destruct (SFcompare x y) as [[]|]; congruence. }
    assert (Hyx : SFltb y x = false).
    { unfold SFltb. rewrite (SFcompare_antisym x y).
      destruct (SFcompare x y) as [[]|]; simpl; congruence. }
    unfold compare, F32.ltb. rewrite Hxy, Hyx. auto.
Qed.

Lemma compare_le_iff (x y : spec_float) : compare x y <= 0 <-> SFltb x y = true.
Proof. destruct (compare_cases x y) as [[-> ->]|[-> ->]]; split; (lia || congruence). Qed.

Lemma nan_free_In (l : list spec_float) (x : spec_float) :
  nan_free l = true -> In x l -> is_nan x = false.
Proof.
  unfold nan_free. rewrite forallb_forall. intros H Hx.
  apply negb_true_iff, H, Hx.
Qed.

Lemma SFltb_irrefl (x : spec_float) : SFltb x x = false.
Proof.
  destruct (SFltb x x) eqn:E; [|reflexivity].
  rewrite (SFltb_asym x x E) in E. discriminate.
Qed.

Lemma count_below_perm (v : spec_float) (l l' : list spec_float) :
  Permutation l l' -> count_below v l = count_below v l'.
Proof.
  unfold count_below. induction 1 as [|x l l' _ IH|x y l|l l' l'' _ IH1 _ IH2].
  - reflexivity.
  - rewrite !filter_cons. destruct (decide _); simpl; congruence.
  - rewrite !filter_cons. repeat destruct (decide _); reflexivity.
  - congruence.
Qed.

(** C4 as stated fails in its index formula: floor (0.05 * 10000) is 500,
    while [analyze] stores the entry at index 499 of the sorted sample,
    which differs from the one at index 500. *)
Lemma stored_index_is_not_floor_formula :
  percentile_index 10000 = 500 /\
  (let r := analyze Ref.qsort swapped_sample blank_portfolio in
   (worst_case (snd r),
    fst r !! 499%nat,
    fst r !! Z.to_nat (percentile_index 10000)))
  = (F32.of_Z 499, Some (F32.of_Z 499), Some (F32.of_Z 500)) /\
  F32.of_Z 499 <> F32.of_Z 500.
Proof.
  split; [reflexivity|].
  split; [vm_compute; reflexivity | vm_compute; discriminate].
Qed.

Lemma compare_lt_iff (x y : spec_float) : compare x y < 0 <-> SFltb x y = true.
Proof.
  destruct (compare_cases x y) as [[-> ->]|[-> ->]]; split; (lia || congruence).
Qed.

Lemma SFleb_refl (x : spec_float) : is_nan x = false -> SFleb x x = true.
Proof.
  intros Hx. apply SFltb_false_SFleb; [exact Hx..|apply SFltb_irrefl].
Qed.

(** A value at most one that is below another is below the other. *)
Lemma SFleb_SFltb_trans (x y z : spec_float) :
  SFleb x y = true -> SFltb y z = true -> SFltb x z = true.
Proof.
  unfold SFltb, SFleb.
  destruct x as [sx|sx| |sx mx ex], y as [sy|sy| |sy my ey],
           z as [sz|sz| |sz mz ez];
    try destruct sx; try destruct sy; try destruct sz;
    simpl; try discriminate; try reflexivity;
    rewrite ?Pos.compare_cont_spec; unfold Pos.switch_Eq;
    intros H1 H2; order_cases; simpl in *;
    try discriminate; try reflexivity; try lia.
Qed.

(** On a sample without NaN, [compare] orders the entries. *)
Lemma compare_orders (l : list spec_float) :
  nan_free l = true -> orders compare l.
Proof.
  intros Hnan. repeat split.
  - intros x _. rewrite compare_lt_iff, SFltb_irrefl. discriminate.
  - intros x y z _ _ _. rewrite !compare_lt_iff. apply SFltb_trans.
  - intros x y z Hx Hy Hz. rewrite !compare_lt_iff. intros Hxz.
    destruct (SFltb x y) eqn:Hxy; [left; reflexivity|right].
    apply (SFleb_SFltb_trans y x z); [|exact Hxz].
    apply SFltb_false_SFleb; [exact (nan_free_In l x Hnan Hx)|
                              exact (nan_free_In l y Hnan Hy)|exact Hxy].
  - intros x y _ _. rewrite compare_le_iff, compare_lt_iff. intros H.
    rewrite (SFltb_asym x y H). discriminate.
Qed.


Lemma count_below_app (v : spec_float) (a b : list spec_float) :
  count_below v (a ++ b) = (count_below v a + count_below v b)%nat.
Proof. unfold count_below. rewrite filter_app, length_app. reflexivity. Qed.

Lemma count_below_le (v : spec_float) (l : list spec_float) :
  (count_below v l <= length l)%nat.
Proof. unfold count_below. apply length_filter. Qed.

Lemma count_below_none (v : spec_float) (l : list spec_float) :
  (forall y, In y l -> SFltb y v = false) -> count_below v l = 0%nat.
Proof.
  unfold count_below. induction l as [|a l IH]; intros H; [reflexivity|].
  rewrite filter_cons, (H a) by (left; reflexivity).
  destruct (decide (false = true)) as [|_]; [discriminate|].
  apply IH. intros y Hy. apply H. right. exact Hy.
Qed.

Lemma count_at_most_app (v : spec_float) (a b : list spec_float) :
  count_at_most v (a ++ b) = (count_at_most v a + count_at_most v b)%nat.
Proof. unfold count_at_most. rewrite filter_app, length_app. reflexivity. Qed.

Lemma count_at_most_all (v : spec_float) (l : list spec_float) :
  (forall y, In y l -> SFleb y v = true) -> count_at_most v l = length l.
Proof.
  unfold count_at_most. induction l as [|a l IH]; intros H; [reflexivity|].
  rewrite filter_cons, (H a) by (left; reflexivity).
  destruct (decide (true = true)) as [_|]; [|congruence].
  simpl. f_equal. apply IH. intros y Hy. apply H. right. exact Hy.
Qed.

Lemma count_at_most_perm (v : spec_float) (l l' : list spec_float) :
  Permutation l l' -> count_at_most v l = count_at_most v l'.
Proof.
  unfold count_at_most. induction 1 as [|x l l' _ IH|x y l|l l' l'' _ IH1 _ IH2].
  - reflexivity.
  - rewrite !filter_cons. destruct (decide _); simpl; congruence.
  - rewrite !filter_cons. repeat destruct (decide _); reflexivity.
  - congruence.
Qed.

(** In an ascending list, at most [k] entries are below the one at index
    [k], and at least [k + 1] are not above it. *)
Lemma counts_at_index (s : list spec_float) (k : nat) (v : spec_float) :
  nan_free s = true ->
  (forall i j x y, (i < j)%nat -> s !! i = Some x -> s !! j = Some y ->
     SFltb y x = false) ->
  s !! k = Some v ->
  (count_below v s <= k)%nat /\ (k + 1 <= count_at_most v s)%nat.
Proof.
  intros Hnan Hs Hk.
  assert (Hlen : (k < length s)%nat) by (eapply lookup_lt_Some, Hk).
  split.
  - rewrite <- (take_drop k s), count_below_app.
    rewrite (count_below_none v (drop k s)).
    + pose proof (count_below_le v (take k s)) as H.
      rewrite length_take in H. lia.
    + intros y Hy. apply list_elem_of_In, list_elem_of_lookup in Hy as [j Hj].
      rewrite lookup_drop in Hj. destruct j as [|j].
      * rewrite Nat.add_0_r, Hk in Hj. injection Hj as <-. apply SFltb_irrefl.
      * apply (Hs k (k + S j)%nat v y); [lia|exact Hk|exact Hj].
  - rewrite <- (take_drop (k + 1) s), count_at_most_app.
    rewrite (count_at_most_all v (take (k + 1) s)).
    + rewrite length_take. lia.
    + intros y Hy. apply list_elem_of_In, list_elem_of_lookup in Hy as [i Hi].
      apply lookup_take_Some in Hi as [Hi Hlt].
      assert (Hv : is_nan v = false).
      { apply (nan_free_In s); [exact Hnan|].
        apply list_elem_of_In. eapply list_elem_of_lookup_2, Hk. }
      assert (Hy' : is_nan y = false).
      { apply (nan_free_In s); [exact Hnan|].
        apply list_elem_of_In. eapply list_elem_of_lookup_2, Hi. }
      destruct (Nat.eq_dec i k) as [->|Hne].
      * rewrite Hk in Hi. injection Hi as <-. apply SFleb_refl, Hv.
      * apply SFltb_false_SFleb; [exact Hv|exact Hy'|].
        apply (Hs i k y v); [lia|exact Hi|exact Hk].
Qed.

Lemma nan_free_perm (l l' : list spec_float) :
  Permutation l l' -> nan_free l = true -> nan_free l' = true.
Proof.
  unfold nan_free. rewrite !forallb_forall. intros Hp H x Hx.
  apply H. apply (Permutation_in x (Permutation_sym Hp) Hx).
Qed.

(** C4, amended: for a sample of 10000 floats without NaN, and a [qsort]
    that leaves the array a permutation in which no entry compares less
    than an earlier one, [analyze] stores the entry at zero-based index 499
    of the sample sorted in ascending order, the 500th smallest value
    counted with repetitions: at most 499 sample values are below it and at
    least 500 are not above it.  The index is floor (0.05 * N) - 1, not
    floor (0.05 * N). *)
Theorem analyze_stores_500th_smallest
    (qsort : (spec_float -> spec_float -> Z) -> list spec_float -> list spec_float)
    (data : list spec_float) (bucket : Portfolio) :
  qsort_orders qsort ->
  Z.of_nat (length data) = 10000 ->
  nan_free data = true ->
  exists v,
    worst_case (snd (analyze qsort data bucket)) = v /\
    fst (analyze qsort data bucket) !! 499%nat = Some v /\
    Permutation data (fst (analyze qsort data bucket)) /\
    ascending (fst (analyze qsort data bucket)) /\
    (count_below v data <= 499)%nat /\
    (500 <= count_at_most v data)%nat /\
    499 = percentile_index 10000 - 1.
Proof.
  intros Hq Hlen Hnan. unfold analyze.
  rewrite firstn_all2, skipn_all2, app_nil_r by lia.
  cbn [fst snd worst_case set_worst_case].
  destruct (Hq compare data (compare_orders data Hnan)) as [Hp Hs].
  set (sorted := qsort compare data) in *.
  pose proof (nan_free_perm data sorted Hp Hnan) as Hnan'.
  assert (Hnlt : forall i j x y, (i < j)%nat -> sorted !! i = Some x ->
                   sorted !! j = Some y -> SFltb y x = false).
  { intros i j x y Hij Hi Hj. pose proof (Hs i j x y Hij Hi Hj) as H.
    rewrite compare_lt_iff in H. destruct (SFltb y x); [congruence|reflexivity]. }
  destruct (sorted !! 499%nat) as [v|] eqn:Hv.
  - exists v. split.
    + unfold array_get. apply nth_lookup_Some with (d := S754_nan) in Hv.
      exact Hv.
    + split; [reflexivity|]. split; [exact Hp|]. split.
      * intros i j x y Hij Hi Hj. apply SFltb_false_SFleb.
        -- apply (nan_free_In sorted); [exact Hnan'|].
           apply list_elem_of_In. eapply list_elem_of_lookup_2, Hj.
        -- apply (nan_free_In sorted); [exact Hnan'|].
           apply list_elem_of_In. eapply list_elem_of_lookup_2, Hi.
        -- apply (Hnlt i j); assumption.
      * destruct (counts_at_index sorted 499 v Hnan' Hnlt Hv) as [Hb Ha].
        rewrite (count_below_perm v data sorted Hp).
        rewrite (count_at_most_perm v data sorted Hp).
        split; [exact Hb|]. split; [exact Ha|reflexivity].
  - apply lookup_ge_None in Hv.
    apply Permutation_length in Hp. lia.
Qed.

Lemma analyze_stores_500th_smallest_witness :
  exists v,
    worst_case (snd (analyze Ref.qsort repeated_sample blank_portfolio)) = v /\
    fst (analyze Ref.qsort repeated_sample blank_portfolio) !! 499%nat = Some v /\
    Permutation repeated_sample
      (fst (analyze Ref.qsort repeated_sample blank_portfolio)) /\
    ascending (fst (analyze Ref.qsort repeated_sample blank_portfolio)) /\
    (count_below v repeated_sample <= 499)%nat /\
    (500 <= count_at_most v repeated_sample)%nat /\
    499 = percentile_index 10000 - 1.
Proof.
  assert (H : (Z.of_nat (length repeated_sample) =? 10000)
              && nan_free repeated_sample = true)
    by (vm_compute; reflexivity).
  apply andb_prop in H as [Hlen Hnan].
  apply (analyze_stores_500th_smallest Ref.qsort repeated_sample blank_portfolio
           ref_qsort_orders).
  - apply Z.eqb_eq, Hlen.
  - exact Hnan.
Defined.

(** ** Exact floating-point results *)

Lemma Zpos_iter_xO (m q : positive) :
  Zpos (Pos.iter xO m q) = Zpos m * 2 ^ Zpos q.
Proof.
  induction q as [|q IH] using Pos.peano_ind.
  - simpl. lia.
  - rewrite Pos.iter_succ, Pos2Z.inj_succ, Z.pow_succ_r by lia.
    rewrite Pos2Z.inj_xO, IH. lia.
Qed.

Lemma Zpos_shlp (m : positive) (p : Z) :
  0 <= p -> Zpos (shlp m p) = Zpos m * 2 ^ p.
Proof.
  destruct p as [|q|q]; intros H; simpl shlp; [lia| |lia].
  apply Zpos_iter_xO.
Qed.

Lemma digits_iter_xO (m q : positive) :
  digits (Pos.iter xO m q) = digits m + Zpos q.
Proof.
  unfold digits. induction q as [|q IH] using Pos.peano_ind.
  - simpl. lia.
  - rewrite Pos.iter_succ. simpl digits2_pos.
    rewrite Pos2Z.inj_succ, IH. lia.
Qed.

Lemma digits_shlp (m : positive) (p : Z) :
  0 <= p -> digits (shlp m p) = digits m + p.
Proof.
  destruct p as [|q|q]; intros H; simpl shlp; [lia| |lia].
  apply digits_iter_xO.
Qed.

Lemma digits_pos (m : positive) : 1 <= digits m.
Proof. unfold digits. lia. Qed.

(** [digits m] is the bit length of [m]. *)
Lemma digits_bounds (m : positive) :
  2 ^ (digits m - 1) <= Zpos m < 2 ^ digits m.
Proof.
  unfold digits. induction m as [m IH|m IH|]; simpl digits2_pos.
  - rewrite Pos2Z.inj_succ, Pos2Z.inj_xI.
    replace (Z.succ (Zpos (digits2_pos m)) - 1)
      with (Z.succ (Zpos (digits2_pos m) - 1)) by lia.
    rewrite !Z.pow_succ_r by lia.
    generalize dependent (2 ^ (Zpos (digits2_pos m) - 1)).
    generalize (2 ^ Zpos (digits2_pos m)). intros; lia.
  - rewrite Pos2Z.inj_succ, (Pos2Z.inj_xO m).
    replace (Z.succ (Zpos (digits2_pos m)) - 1)
      with (Z.succ (Zpos (digits2_pos m) - 1)) by lia.
    rewrite !Z.pow_succ_r by lia.
    generalize dependent (2 ^ (Zpos (digits2_pos m) - 1)).
    generalize (2 ^ Zpos (digits2_pos m)). intros; lia.
  - simpl. lia.
Qed.

Lemma digits_le (m : positive) (n : Z) :
  0 <= n -> Zpos m < 2 ^ n -> digits m <= n.
Proof.
  intros Hn H. pose proof (digits_bounds m) as [Hlo _].
  destruct (Z.le_gt_cases (digits m) n) as [|Hgt]; [assumption|].
  assert (2 ^ n <= 2 ^ (digits m - 1)) by (apply Z.pow_le_mono_r; lia). lia.
Qed.

Lemma digits_ge (m : positive) (n : Z) :
  2 ^ n <= Zpos m -> n + 1 <= digits m.
Proof.
  intros H. pose proof (digits_bounds m) as [_ Hhi]. pose proof (digits_pos m).
  destruct (Z.le_gt_cases (n + 1) (digits m)) as [|Hgt]; [assumption|].
  assert (2 ^ digits m <= 2 ^ n) by (apply Z.pow_le_mono_r; lia). lia.
Qed.

Lemma shlp_shlp (m : positive) (p q : Z) :
  0 <= p -> 0 <= q -> shlp (shlp m p) q = shlp m (p + q).
Proof.
  intros Hp Hq. apply Pos2Z.inj.
  rewrite !Zpos_shlp, Z.pow_add_r by lia. lia.
Qed.

(** Shifting right what was shifted left loses nothing. *)
Lemma iter_shr_1_exact (q m : positive) :
  SpecFloat.iter_pos shr_1 q {| shr_m := Zpos (Pos.iter xO m q); shr_r := false; shr_s := false |}
  = {| shr_m := Zpos m; shr_r := false; shr_s := false |}.
Proof.
  revert m. induction q as [q IH|q IH|]; intros m; simpl.
  - rewrite !IH. reflexivity.
  - rewrite !IH. reflexivity.
  - reflexivity.
Qed.

Section Rounding.
Variables prec emax : Z.

Lemma shr_exact (m : positive) (e p : Z) :
  0 <= p ->
  shr {| shr_m := Zpos (shlp m p); shr_r := false; shr_s := false |} e p
  = ({| shr_m := Zpos m; shr_r := false; shr_s := false |}, e + p).
Proof.
  destruct p as [|q|q]; intros H; [|simpl|lia].
  - simpl. rewrite Z.add_0_r. reflexivity.
  - rewrite iter_shr_1_exact. reflexivity.
Qed.

Lemma canonical_fexp (mc : positive) (ec : Z) :
  canonical_mantissa prec emax mc ec = true -> fexp prec emax (digits mc + ec) = ec.
Proof. unfold canonical_mantissa. intros H. apply Z.eqb_eq in H. exact H. Qed.

(** A canonical float scaled up by a power of two rounds back to itself. *)
Lemma binary_round_aux_exact (s : bool) (mc : positive) (ec p : Z) :
  canonical_mantissa prec emax mc ec = true -> ec <= emax - prec -> 0 <= p ->
  binary_round_aux prec emax s (Zpos (shlp mc p)) (ec - p) loc_Exact
  = S754_finite s mc ec.
Proof.
  intros Hc He Hp. pose proof (canonical_fexp mc ec Hc) as Hf.
  unfold binary_round_aux, shr_fexp.
  change (Zdigits2 (Zpos (shlp mc p))) with (digits (shlp mc p)).
  rewrite digits_shlp by exact Hp.
  replace (digits mc + p + (ec - p)) with (digits mc + ec) by lia.
  rewrite Hf. replace (ec - (ec - p)) with p by lia.
  cbn [shr_record_of_loc]. rewrite shr_exact by exact Hp.
  cbn [shr_m loc_of_shr_record round_nearest_even].
  change (Zdigits2 (Zpos mc)) with (digits mc).
  replace (ec - p + p) with ec by lia.
  rewrite Hf, Z.sub_diag. cbn [shr_record_of_loc shr shr_m].
  destruct (Z.leb_spec ec (emax - prec)); [reflexivity | lia].
Qed.

Lemma binary_round_down (s : bool) (mc : positive) (ec p : Z) :
  canonical_mantissa prec emax mc ec = true -> ec <= emax - prec -> 0 <= p ->
  binary_round prec emax s (shlp mc p) (ec - p) = S754_finite s mc ec.
Proof.
  intros Hc He Hp. pose proof (canonical_fexp mc ec Hc) as Hf.
  unfold binary_round.
  change (Zpos (digits2_pos (shlp mc p))) with (digits (shlp mc p)).
  rewrite digits_shlp by exact Hp.
  replace (digits mc + p + (ec - p)) with (digits mc + ec) by lia.
  rewrite Hf. unfold shl_align. replace (ec - (ec - p)) with p by lia.
  destruct p as [|q|q]; [| |lia];
    apply (binary_round_aux_exact s mc ec _ Hc He Hp).
Qed.

Lemma binary_round_up (s : bool) (m : positive) (e p : Z) :
  canonical_mantissa prec emax (shlp m p) (e - p) = true ->
  e - p <= emax - prec -> 0 <= p ->
  binary_round prec emax s m e = S754_finite s (shlp m p) (e - p).
Proof.
  intros Hc He Hp. pose proof (canonical_fexp _ _ Hc) as Hf.
  rewrite digits_shlp in Hf by exact Hp.
  unfold binary_round. change (Zpos (digits2_pos m)) with (digits m).
  replace (digits m + e) with (digits m + p + (e - p)) by lia.
  rewrite Hf. unfold shl_align. replace (e - p - e) with (- p) by lia.
  pose proof (binary_round_aux_exact s (shlp m p) (e - p) 0 Hc He ltac:(lia)) as H.
  rewrite Z.sub_0_r in H. simpl shlp at 1 in H.
  destruct p as [|q|q]; [| |lia]; simpl Z.opp; cbv iota.
  - rewrite Z.sub_0_r in *. exact H.
  - exact H.
Qed.

End Rounding.

(** *** Binary64: sums and quotients that are exact *)

Lemma canonical64 (M : positive) (E : Z) :
  digits M <= 53 -> -1000 <= E ->
  canonical_mantissa 53 1024 (shlp M (53 - digits M)) (E - (53 - digits M)) = true.
Proof.
  intros Hd HE. unfold canonical_mantissa.
  change (Zpos (digits2_pos (shlp M (53 - digits M))))
    with (digits (shlp M (53 - digits M))).
  pose proof (digits_pos M).
  rewrite digits_shlp by lia. unfold fexp, emin. apply Z.eqb_eq. lia.
Qed.

Lemma round64_scaled (s : bool) (M : positive) (E p : Z) :
  digits M <= 53 -> 0 <= p -> -1000 <= E <= 900 ->
  binary_round 53 1024 s (shlp M p) (E - p) = D64 s M E.
Proof.
  intros Hd Hp HE. unfold D64.
  pose proof (canonical64 M E Hd ltac:(lia)) as Hc.
  pose proof (digits_pos M) as H1.
  destruct (Z.le_gt_cases p (53 - digits M)) as [Hle|Hgt].
  - assert (E1 : shlp (shlp M p) (53 - digits M - p) = shlp M (53 - digits M)).
    { rewrite shlp_shlp by lia. f_equal. lia. }
    assert (E2 : E - p - (53 - digits M - p) = E - (53 - digits M)) by lia.
    rewrite <- E1, <- E2.
    apply binary_round_up; [|lia|lia].
    rewrite E1, E2. exact Hc.
  - assert (E1 : shlp (shlp M (53 - digits M)) (p - (53 - digits M)) = shlp M p).
    { rewrite shlp_shlp by lia. f_equal. lia. }
    assert (E2 : E - (53 - digits M) - (p - (53 - digits M)) = E - p) by lia.
    rewrite <- E1, <- E2.
    apply binary_round_down; [exact Hc|simpl; lia|lia].
Qed.

Lemma normalize64 (s : bool) (M : positive) (E p : Z) :
  digits M <= 53 -> 0 <= p -> -1000 <= E <= 900 ->
  binary_normalize 53 1024 (cond_Zopp s (Zpos (shlp M p))) (E - p) false
  = D64 s M E.
Proof.
  intros Hd Hp HE. destruct s; simpl; apply round64_scaled; assumption.
Qed.

Lemma bounded32 (m : positive) (e : Z) :
  bounded 24 128 m e = true ->
  canonical_mantissa 24 128 m e = true /\ digits m <= 24 /\ -149 <= e <= 104.
Proof.
  unfold bounded. intros H. apply andb_prop in H as [Hc He].
  split; [exact Hc|]. apply Z.leb_le in He.
  unfold canonical_mantissa, fexp, emin in Hc. apply Z.eqb_eq in Hc.
  fold (digits m) in Hc. lia.
Qed.

Lemma double_of_float_finite (s : bool) (m : positive) (e : Z) :
  bounded 24 128 m e = true ->
  double_of_float (S754_finite s m e) = D64 s m e.
Proof.
  intros H. apply bounded32 in H as (_ & Hd & He).
  unfold double_of_float.
  pose proof (normalize64 s m e 0 ltac:(lia) ltac:(lia) ltac:(lia)) as G.
  rewrite Z.sub_0_r in G. simpl shlp in G.
  destruct s; simpl in *; exact G.
Qed.

Lemma float_of_double_D64 (s : bool) (m : positive) (e : Z) :
  bounded 24 128 m e = true ->
  float_of_double (D64 s m e) = S754_finite s m e.
Proof.
  intros H. apply bounded32 in H as (Hc & Hd & He).
  pose proof (digits_pos m).
  unfold float_of_double, D64.
  assert (G : binary_round 24 128 s (shlp m (53 - digits m)) (e - (53 - digits m))
              = S754_finite s m e).
  { apply binary_round_down; [exact Hc | simpl; lia | lia]. }
  destruct s; simpl; exact G.
Qed.

Lemma shl_align_fst (mx : positive) (ex ez : Z) :
  ez <= ex -> fst (shl_align mx ex ez) = shlp mx (ex - ez).
Proof.
  intros H. unfold shl_align.
  destruct (ez - ex) as [|d|d] eqn:E.
  - replace (ex - ez) with 0 by lia. reflexivity.
  - lia.
  - replace (ex - ez) with (Zpos d) by lia. reflexivity.
Qed.

Lemma cond_Zopp_add (s : bool) (a b : Z) :
  cond_Zopp s a + cond_Zopp s b = cond_Zopp s (a + b).
Proof. destruct s; simpl; lia. Qed.

(** Adding two floats of one sign whose sum still fits 53 bits is exact. *)
Lemma add64_exact (s : bool) (a b : positive) (E : Z) :
  digits (a + b) <= 53 -> -900 <= E <= 900 ->
  F64.add (D64 s a E) (D64 s b E) = D64 s (a + b) E.
Proof.
  intros Hd HE.
  assert (Ha : digits a <= digits (a + b)).
  { apply digits_le; [pose proof (digits_pos (a + b)); lia|].
    pose proof (digits_bounds (a + b)). lia. }
  assert (Hb : digits b <= digits (a + b)).
  { apply digits_le; [pose proof (digits_pos (a + b)); lia|].
    pose proof (digits_bounds (a + b)). lia. }
  pose proof (digits_pos a). pose proof (digits_pos b).
  unfold F64.add, D64, SFadd.
  set (ea := E - (53 - digits a)). set (eb := E - (53 - digits b)).
  set (ez := Z.min ea eb).
  rewrite !shl_align_fst by (subst ez ea eb; lia).
  rewrite !shlp_shlp by (subst ez ea eb; lia).
  replace (53 - digits a + (ea - ez)) with (E - ez) by (subst ea; lia).
  replace (53 - digits b + (eb - ez)) with (E - ez) by (subst eb; lia).
  rewrite cond_Zopp_add.
  replace (Zpos (shlp a (E - ez)) + Zpos (shlp b (E - ez)))
    with (Zpos (shlp (a + b) (E - ez)))
    by (rewrite !Zpos_shlp by (subst ez ea eb; lia); lia).
  replace ez with (E - (E - ez)) at 2 by lia.
  apply normalize64; subst ez ea eb; lia.
Qed.

Lemma of_Z64 (n : positive) :
  digits n <= 53 -> F64.of_Z (Zpos n) = D64 false n 0.
Proof.
  intros H. unfold F64.of_Z.
  pose proof (normalize64 false n 0 0 H ltac:(lia) ltac:(lia)) as G.
  exact G.
Qed.

Lemma div_eucl_exact (a b : Z) : Z.div_eucl a b = (a / b, a mod b).
Proof. unfold Z.div, Z.modulo. destruct (Z.div_eucl a b). reflexivity. Qed.

Lemma div_core_exact (m1 m2 q : positive) (e1 e2 : Z) :
  digits m1 = 53 -> digits m2 = 53 -> -1000 <= e1 - e2 ->
  Zpos m1 * 2 ^ 53 = Zpos m2 * Zpos q ->
  SFdiv_core_binary 53 1024 (Zpos m1) e1 (Zpos m2) e2
  = (Zpos q, e1 - e2 - 53, loc_Exact).
Proof.
  intros H1 H2 He Hq. unfold SFdiv_core_binary.
  change (Zdigits2 (Zpos m1)) with (digits m1).
  change (Zdigits2 (Zpos m2)) with (digits m2).
  rewrite H1, H2.
  replace (Z.min (fexp 53 1024 (53 + e1 - (53 + e2))) (e1 - e2))
    with (e1 - e2 - 53) by (unfold fexp, emin; lia).
  replace (e1 - e2 - (e1 - e2 - 53)) with 53 by lia. cbv iota.
  rewrite Z.shiftl_mul_pow2, Hq by lia.
  rewrite div_eucl_exact, Z.mul_comm, Z.div_mul, Z.mod_mul by lia.
  unfold new_location, new_location_even, new_location_odd.
  destruct (Z.even (Zpos m2)); reflexivity.
Qed.

(** Dividing [n * m * 2^E] by the integer [n] is exact. *)
Lemma div64_exact (s : bool) (n m : positive) (E : Z) :
  digits (n * m) <= 53 -> -900 <= E <= 900 ->
  F64.div (D64 s (n * m) E) (D64 false n 0) = D64 s m E.
Proof.
  intros Hd HE.
  pose proof (digits_pos n). pose proof (digits_pos m).
  pose proof (digits_bounds n) as Bn. pose proof (digits_bounds m) as Bm.
  assert (Hn : digits n <= digits (n * m)).
  { apply digits_le; [pose proof (digits_pos (n * m)); lia|].
    pose proof (digits_bounds (n * m)). nia. }
  assert (Hm : digits m <= digits (n * m)).
  { apply digits_le; [pose proof (digits_pos (n * m)); lia|].
    pose proof (digits_bounds (n * m)). nia. }
  assert (Hnm : digits (n * m) <= digits n + digits m).
  { apply digits_le; [lia|]. rewrite Z.pow_add_r by lia.
    rewrite Pos2Z.inj_mul. nia. }
  unfold F64.div, D64, SFdiv, F64.prec, F64.emax.
  set (pa := 53 - digits (n * m)). set (pn := 53 - digits n).
  set (pm := 53 - digits m).
  set (p := digits m + digits n - digits (n * m)).
  rewrite (div_core_exact _ _ (shlp (shlp m pm) p)).
  - rewrite xorb_false_r.
    replace (E - pa - (0 - pn) - 53) with (E - pm - p) by (subst pa pn pm p; lia).
    apply binary_round_aux_exact; [|subst pm; lia|subst p; lia].
    apply canonical64; subst pm; lia.
  - rewrite digits_shlp; subst pa; lia.
  - rewrite digits_shlp; subst pn; lia.
  - subst pa pn. lia.
  - rewrite !Zpos_shlp by (subst pa pn pm p; lia).
    rewrite Pos2Z.inj_mul.
    replace (Zpos n * Zpos m * 2 ^ pa * 2 ^ 53)
      with (Zpos n * Zpos m * (2 ^ pa * 2 ^ 53)) by ring.
    replace (Zpos n * 2 ^ pn * (Zpos m * 2 ^ pm * 2 ^ p))
      with (Zpos n * Zpos m * (2 ^ pn * (2 ^ pm * 2 ^ p))) by ring.
    rewrite <- !Z.pow_add_r by (subst pa pn pm p; lia).
    f_equal. f_equal. subst pa pn pm p. lia.
Qed.

(** *** A series of identical observations *)

Lemma array_get_replicate (v : spec_float) (N i : nat) :
  (i < N)%nat -> array_get (replicate N v) i = v.
Proof.
  intros H. unfold array_get. apply nth_lookup_Some.
  apply lookup_replicate_2, H.
Qed.

Lemma mean_loop_replicate (v : spec_float) (N n i : nat) (total : spec_float) :
  (i + n <= N)%nat ->
  mean_loop (replicate N v) n i total
  = Nat.iter n (fun t => F64.add t (double_of_float v)) total.
Proof.
  revert i total. induction n as [|n IH]; intros i total H; [reflexivity|].
  rewrite Nat.iter_succ_r. simpl mean_loop.
  rewrite array_get_replicate by lia. apply IH. lia.
Qed.

Lemma stand_dev_loop_replicate (v m : spec_float) (N n i : nat)
    (total : spec_float) :
  (i + n <= N)%nat ->
  stand_dev_loop (replicate N v) m n i total
  = Nat.iter n
      (fun t => F64.add t
                  (double_of_float (F32.mul (F32.sub v m) (F32.sub v m))))
      total.
Proof.
  revert i total. induction n as [|n IH]; intros i total H; [reflexivity|].
  rewrite Nat.iter_succ_r. simpl stand_dev_loop.
  rewrite array_get_replicate by lia. apply IH. lia.
Qed.

Lemma iter_add_zero (s : bool) (n : nat) :
  Nat.iter n (fun t => F64.add t (S754_zero s)) (S754_zero false)
  = S754_zero false.
Proof.
  induction n as [|n IH]; [reflexivity|].
  simpl. rewrite IH. destruct s; reflexivity.
Qed.

(** [k] copies of one float add up exactly while [k * m] fits 53 bits. *)
Lemma iter_add_exact (s : bool) (m : positive) (e : Z) (k : positive) :
  Zpos k * Zpos m < 2 ^ 53 -> -900 <= e <= 900 ->
  Pos.iter (fun t => F64.add t (D64 s m e)) (F64.of_Z 0) k = D64 s (k * m) e.
Proof.
  intros Hk He. induction k as [|k IH] using Pos.peano_ind.
  - reflexivity.
  - rewrite Pos.iter_succ, IH by lia.
    rewrite Pos.mul_succ_l, (Pos.add_comm m).
    apply add64_exact; [|exact He].
    apply digits_le; lia.
Qed.

Lemma of_Z64_finite (n : Z) :
  1 <= n < 2 ^ 53 -> exists m e, F64.of_Z n = S754_finite false m e.
Proof.
  intros H. destruct n as [|p|p]; try lia.
  rewrite of_Z64 by (apply digits_le; lia). unfold D64. eauto.
Qed.

(** The mean of [N] copies of a finite float is that float (as +0 for a
    zero of either sign). *)
Lemma mean_replicate (v : spec_float) (N : Z) :
  F32.valid v = true -> is_finite v = true -> 1 <= N <= 2 ^ 29 ->
  mean (replicate (Z.to_nat N) v) N
  = match v with S754_zero _ => S754_zero false | _ => v end.
Proof.
  intros Hv Hf HN. unfold mean.
  destruct (Z.eqb_spec N 0) as [|_]; [lia|].
  rewrite mean_loop_replicate by lia.
  destruct N as [|n|n]; try lia.
  destruct v as [s|s| |s m e]; try discriminate.
  - change (double_of_float (S754_zero s)) with (S754_zero s).
    change (F64.of_Z 0) with (S754_zero false).
    rewrite iter_add_zero.
    destruct (of_Z64_finite (Zpos n)) as (m' & e' & ->); [lia|]. reflexivity.
  - unfold F32.valid, valid_binary in Hv.
    pose proof (bounded32 m e Hv) as (_ & Hd & He).
    pose proof (digits_bounds m) as Bm.
    assert (Hm : Zpos m < 2 ^ 24).
    { eapply Z.lt_le_trans; [apply Bm|]. apply Z.pow_le_mono_r; lia. }
    rewrite double_of_float_finite by exact Hv.
    change (Z.to_nat (Zpos n)) with (Pos.to_nat n).
    unfold Nat.iter. rewrite <- Pos2Nat.inj_iter.
    assert (Hnm : Zpos n * Zpos m < 2 ^ 53).
    { change (2 ^ 53) with (2 ^ 29 * 2 ^ 24). nia. }
    rewrite iter_add_exact by lia.
    rewrite of_Z64 by (apply digits_le; lia).
    rewrite div64_exact by (try (apply digits_le; lia); lia).
    apply float_of_double_D64, Hv.
Qed.

Lemma sub_self (v : spec_float) :
  is_finite v = true ->
  F32.mul (F32.sub v (match v with S754_zero _ => S754_zero false | _ => v end))
          (F32.sub v (match v with S754_zero _ => S754_zero false | _ => v end))
  = S754_zero false.
Proof.
  destruct v as [s|s| |s m e]; try discriminate; intros _.
  - destruct s; reflexivity.
  - assert (E : F32.sub (S754_finite s m e) (S754_finite s m e) = S754_zero false).
    { unfold F32.sub, SFsub. rewrite Z.min_id.
      rewrite !shl_align_fst by lia. rewrite Z.sub_diag. reflexivity. }
    rewrite E. reflexivity.
Qed.

Lemma stand_dev_zero_deviations (v m : spec_float) (N : Z) :
  F32.mul (F32.sub v m) (F32.sub v m) = S754_zero false ->
  2 <= N <= 2 ^ 29 ->
  stand_dev (replicate (Z.to_nat N) v) N m = S754_zero false.
Proof.
  intros Hsq HN. unfold stand_dev.
  destruct (Z.ltb_spec N 2) as [|_]; [lia|].
  rewrite stand_dev_loop_replicate by lia.
  rewrite Hsq. change (double_of_float (S754_zero false)) with (S754_zero false).
  change (F64.of_Z 0) with (S754_zero false).
  rewrite iter_add_zero.
  destruct (of_Z64_finite (N - 1)) as (m' & e' & ->); [lia|]. reflexivity.
Qed.

(** C8 as stated fails for an infinite value: two copies of +infinity have
    mean +infinity, the deviations are NaN, and so is the result. *)
Lemma stand_dev_of_infinities_is_nan :
  stand_dev (replicate 2 (S754_infinity false)) 2
    (mean (replicate 2 (S754_infinity false)) 2) = S754_nan /\
  S754_nan <> S754_zero false.
Proof. split; [vm_compute; reflexivity | discriminate]. Qed.

(** C8, amended: for every finite float [v] and every [N] from 2 up to
    2^29 (the range in which the [double] accumulator holds the sum of the
    series exactly), [stand_dev] of [N] copies of [v], with the mean that
    [mean] computes on the same series, is exactly +0. *)
Theorem stand_dev_of_constant_series (v : spec_float) (N : Z) :
  F32.valid v = true -> is_finite v = true -> 2 <= N <= 2 ^ 29 ->
  mean (replicate (Z.to_nat N) v) N
    = match v with S754_zero _ => S754_zero false | _ => v end /\
  stand_dev (replicate (Z.to_nat N) v) N (mean (replicate (Z.to_nat N) v) N)
    = S754_zero false.
Proof.
  intros Hv Hf HN.
  pose proof (mean_replicate v N Hv Hf ltac:(lia)) as Hmean.
  split; [exact Hmean|]. rewrite Hmean.
  apply stand_dev_zero_deviations; [apply sub_self, Hf | exact HN].
Qed.

Lemma stand_dev_of_constant_series_witness :
  stand_dev (replicate 30 one_percent) 30 (mean (replicate 30 one_percent) 30)
  = S754_zero false.
Proof.
  exact (proj2 (stand_dev_of_constant_series one_percent 30
                  eq_refl eq_refl ltac:(lia))).
Defined.

(** * Further properties of the engine *)
(** ** [load] and the fields of a line *)

Lemma split_commas_span (s : string) :
  split_commas s
  = fst (span_until is_comma s)
      :: match snd (span_until is_comma s) with
         | EmptyString => []
         | String _ r => split_commas r
         end.
Proof.
  induction s as [|c r IH]; [reflexivity|]. simpl.
  destruct (is_comma c) eqn:Ec; [reflexivity|].
  rewrite IH. destruct (span_until is_comma r) as [t rest]. reflexivity.
Qed.

Lemma fields_skip_delims (s : string) :
  fields (skip_delims is_comma s) = fields s.
Proof.
  induction s as [|c r IH]; [reflexivity|]. simpl.
  destruct (is_comma c) eqn:Ec; [|reflexivity].
  rewrite IH. unfold fields. simpl. rewrite Ec. reflexivity.
Qed.

(** One call of [strtok] takes the first field off the line. *)
Lemma strtok_fields (s : string) :
  match strtok is_comma s with
  | None => fields s = []
  | Some (tok, saved) => fields s = tok :: fields saved
  end.
Proof.
  unfold strtok. rewrite <- (fields_skip_delims s).
  destruct (skip_delims is_comma s) as [|c r] eqn:Es; [reflexivity|].
  assert (Hc : is_comma c = false).
  { clear -Es. induction s as [|a s IH]; [discriminate|]. simpl in Es.
    destruct (is_comma a) eqn:Ea; [exact (IH Es)|]. congruence. }
  unfold fields. rewrite (split_commas_span (String c r)).
  destruct (span_until is_comma (String c r)) as [tok rest] eqn:Esp.
  simpl in Esp. rewrite Hc in Esp.
  destruct (span_until is_comma r) as [t rest'] eqn:Er.
  injection Esp as <- <-. simpl.
  destruct rest'; reflexivity.
Qed.

Lemma load_fields (atof : string -> spec_float) (line : string)
    (data : RawData) :
  load atof line data
  = match fields line with
    | f1 :: f2 :: _ =>
        if 20 <=? Z.of_nat (String.length (cut_crlf f1))
        then Fault LabelOverrun
        else Ok {| raw_type := cut_crlf f1;
                   raw_value := float_of_double (atof f2) |}
    | _ => Ok data
    end.
Proof.
  unfold load. pose proof (strtok_fields line) as H1.
  destruct (strtok is_comma line) as [[type saved]|]; [|rewrite H1; reflexivity].
  rewrite H1. pose proof (strtok_fields saved) as H2.
  destruct (strtok is_comma saved) as [[return_str rest]|];
    [|rewrite H2; reflexivity].
  rewrite H2. unfold strcpy20, cut_crlf.
  destruct (20 <=? Z.of_nat (String.length (fst (span_until is_crlf type))));
    reflexivity.
Qed.

Lemma load_short_line (atof : string -> spec_float) (line : string)
    (data : RawData) :
  (length (fields line) < 2)%nat -> load atof line data = Ok data.
Proof.
  intros H. rewrite load_fields.
  destruct (fields line) as [|f1 [|f2 rest]]; try reflexivity.
  simpl in H. lia.
Qed.

(** X3: [load] reads the first two fields of the line: the first, cut at its
    first line terminator, is the label and the second goes to [atof];
    empty fields are skipped and further fields ignored.  With fewer than
    two fields the entry is left as it was, and a label of 20 characters or
    more does not fit [type]. *)
Theorem load_reads_first_two_fields (atof : string -> spec_float)
    (line : string) (data : RawData) :
  load atof line data
  = match fields line with
    | f1 :: f2 :: _ =>
        if 20 <=? Z.of_nat (String.length (cut_crlf f1))
        then Fault LabelOverrun
        else Ok {| raw_type := cut_crlf f1;
                   raw_value := float_of_double (atof f2) |}
    | _ => Ok data
    end.
Proof. exact (load_fields atof line data). Qed.

(** X4: A line with fewer than two fields (a blank line, a line without a
    comma) is not skipped: the loop appends the value of the entry before it
    once more to that entry's bucket. *)
Theorem short_line_repeats_entry (atof : string -> spec_float) (r r' : Run)
    (buffer : string) :
  (length (fields buffer) < 2)%nat ->
  ingest_line atof r buffer = Ok r' ->
  current_entry r' = current_entry r /\
  series_at (buckets r') (hash (raw_type (current_entry r)))
  = series_at (buckets r) (hash (raw_type (current_entry r)))
      ++ [raw_value (current_entry r)].
Proof.
  intros Hshort H.
  destruct (ingest_line_Ok atof r r' buffer H)
    as (entry & Hload & Hcur & _ & (p & _ & Hp & Hret) & _).
  rewrite (load_short_line atof buffer _ Hshort) in Hload.
  injection Hload as <-. split; [exact Hcur|].
  unfold series_at at 1. rewrite Hp. exact Hret.
Qed.

Lemma short_line_repeats_entry_witness :
  (length (fields (String (ascii_of_nat 10) EmptyString)) < 2)%nat /\
  exists r',
    ingest_line Ref.atof two_lines_run (String (ascii_of_nat 10) EmptyString)
      = Ok r' /\
    series_at (buckets r') (hash "stocks")
    = [float_of_double (Ref.atof "0.01"); float_of_double (Ref.atof "0.01");
       float_of_double (Ref.atof "0.01")].
Proof.
  assert (Hshort : (length (fields (String (ascii_of_nat 10) EmptyString)) < 2)%nat)
    by (vm_compute; lia).
  split; [exact Hshort|].
  eexists. split; [vm_compute; reflexivity|].
  match goal with
  | |- series_at (buckets ?r2) _ = _ =>
      exact (proj2 (short_line_repeats_entry Ref.atof two_lines_run r2
                      (String (ascii_of_nat 10) EmptyString) Hshort eq_refl))
  end.
Defined.

(** ** What [hash] cannot tell apart, and where [long] overflows *)

Lemma hash_step_a_to_d (total : Z) (c : ascii) :
  hash_step total (a_to_d c) = hash_step total c.
Proof. destruct c as [[] [] [] [] [] [] [] []]; reflexivity. Qed.

(** X5: The weight of ['A'] is moved from 0 to 3, the weight of ['D']: a label
    and the label with its letters A replaced by D share a bucket. *)
Theorem hash_confuses_a_and_d (type : string) :
  hash (replace_a type) = hash type.
Proof.
  unfold hash.
  assert (H : forall total,
             hash_loop (replace_a type) total = hash_loop type total).
  { induction type as [|c r IH]; intros total; [reflexivity|].
    simpl. rewrite hash_step_a_to_d. apply IH. }
  rewrite H. reflexivity.
Qed.

Lemma charint_range (c : ascii) :
  -193 <= (let charint := toupper (int_of_char c) - 65 in
           if charint =? 0 then 3 else charint) <= 62.
Proof. destruct c as [[] [] [] [] [] [] [] []]; vm_compute; split; discriminate. Qed.

Lemma wrap_long_id (z : Z) : - 2 ^ 63 <= z < 2 ^ 63 -> wrap_long z = z.
Proof.
  intros H. unfold wrap_long.
  rewrite Z.mod_small by lia. lia.
Qed.

Lemma exact_step_range (total : Z) (c : ascii) :
  33 * total - 193 <= exact_step total c <= 33 * total + 62.
Proof.
  pose proof (charint_range c) as Hc. unfold exact_step. cbv zeta in *. lia.
Qed.

Lemma exact_loop_bounds (type : string) (total : Z) :
  7 <= total ->
  (total - 7) * 33 ^ Z.of_nat (String.length type) + 7
    <= exact_loop type total
    <= (total + 2) * 33 ^ Z.of_nat (String.length type) - 2.
Proof.
  revert total. induction type as [|c r IH]; intros total Ht.
  - simpl. lia.
  - cbn [String.length exact_loop]. rewrite Nat2Z.inj_succ, Z.pow_succ_r by lia.
    pose proof (exact_step_range total c) as Hs.
    assert (Hp : 0 < 33 ^ Z.of_nat (String.length r))
      by (apply Z.pow_pos_nonneg; lia).
    specialize (IH (exact_step total c) ltac:(lia)).
    revert IH Hs Hp. generalize (exact_loop r (exact_step total c)).
    generalize (exact_step total c). generalize (33 ^ Z.of_nat (String.length r)).
    intros P S L IH Hs Hp. nia.
Qed.

Lemma hash_loop_exact (type : string) (total : Z) :
  7 <= total ->
  (total + 2) * 33 ^ Z.of_nat (String.length type) < 2 ^ 63 ->
  hash_loop type total = exact_loop type total.
Proof.
  revert total. induction type as [|c r IH]; intros total Ht Hb; [reflexivity|].
  cbn [String.length] in Hb. rewrite Nat2Z.inj_succ, Z.pow_succ_r in Hb by lia.
  cbn [hash_loop exact_loop].
  pose proof (exact_step_range total c) as Hs.
  assert (Hp : 1 <= 33 ^ Z.of_nat (String.length r))
    by (pose proof (Z.pow_pos_nonneg 33 (Z.of_nat (String.length r))); lia).
  assert (Hsmall : 33 * (total + 2) < 2 ^ 63).
  { revert Hb Hp. generalize (33 ^ Z.of_nat (String.length r)). intros P Hb Hp.
    nia. }
  assert (Hstep : hash_step total c = exact_step total c).
  { pose proof (charint_range c) as Hc.
    unfold hash_step, exact_step in *. cbv zeta in *.
    rewrite (wrap_long_id (total * 33)) by lia.
    apply wrap_long_id. lia. }
  rewrite Hstep. apply IH; [lia|].
  revert Hb Hp Hs. generalize (exact_step total c).
  generalize (33 ^ Z.of_nat (String.length r)). intros P S Hb Hp Hs. nia.
Qed.

Lemma hash_loop_in_long (type : string) (total : Z) :
  - 2 ^ 63 <= total < 2 ^ 63 -> - 2 ^ 63 <= hash_loop type total < 2 ^ 63.
Proof.
  revert total. induction type as [|c r IH]; intros total Ht; [exact Ht|].
  cbn [hash_loop]. apply IH. apply wrap_long_range.
Qed.

(** X6: For a label of at most 10 characters [total] never leaves the range
    of [long], and the index is the exact polynomial modulo 11; from 11
    characters on the exact value is beyond [LONG_MAX], so the computation
    has overflowed. *)
Theorem hash_overflows_from_11_characters (type : string) :
  ((String.length type <= 10)%nat ->
     hash_loop type 5381 = exact_loop type 5381 /\
     hash type = exact_loop type 5381 mod 11) /\
  ((11 <= String.length type)%nat ->
     2 ^ 63 <= exact_loop type 5381 /\
     hash_loop type 5381 <> exact_loop type 5381).
Proof.
  split; intros Hlen.
  - assert (Hpow : 33 ^ Z.of_nat (String.length type) <= 33 ^ 10)
      by (apply Z.pow_le_mono_r; lia).
    assert (He : hash_loop type 5381 = exact_loop type 5381).
    { apply hash_loop_exact; [lia|].
      change (33 ^ 10) with 1531578985264449 in Hpow.
      change (2 ^ 63) with 9223372036854775808. lia. }
    split; [exact He|].
    unfold hash. cbv zeta. rewrite He.
    pose proof (exact_loop_bounds type 5381 ltac:(lia)) as [Hlo _].
    assert (Hp : 0 < 33 ^ Z.of_nat (String.length type))
      by (apply Z.pow_pos_nonneg; lia).
    assert (H0 : 0 <= exact_loop type 5381) by nia.
    rewrite Z.rem_mod_nonneg by (unfold TABLE_SIZE; lia).
    unfold TABLE_SIZE.
    pose proof (Z.mod_pos_bound (exact_loop type 5381) 11 ltac:(lia)).
    destruct (Z.ltb_spec (exact_loop type 5381 mod 11) 0); [lia|reflexivity].
  - assert (Hpow : 33 ^ 11 <= 33 ^ Z.of_nat (String.length type))
      by (apply Z.pow_le_mono_r; lia).
    pose proof (exact_loop_bounds type 5381 ltac:(lia)) as [Hlo _].
    change (33 ^ 11) with 50542106513726817 in Hpow.
    assert (Hbig : 2 ^ 63 <= exact_loop type 5381).
    { change (2 ^ 63) with 9223372036854775808. lia. }
    split; [exact Hbig|].
    intros He.
    pose proof (hash_loop_in_long type 5381 ltac:(lia)).
    lia.
Qed.

(** ** How the ingestion loop can stop *)

Lemma alloc_In (h h' : Heap) (ok : bool) :
  alloc h = (ok, h') ->
  (ok = false -> In false h) /\ (forall x, In x h' -> In x h).
Proof.
  destruct h as [|b h0]; simpl; intros [= <- <-].
  - split; [discriminate|tauto].
  - split; [intros ->; left; reflexivity|intros x Hx; right; exact Hx].
Qed.

Lemma create_bucket_cases (type : string) (h : Heap) :
  match create_bucket type h with
  | Ok (created, h') =>
      (forall x, In x h' -> In x h) /\
      match created with
      | None => In false h
      | Some p => type_name p = type /\ (String.length type < 20)%nat /\
                  returns p = [] /\ day_count p = 0 /\ capacity p = 50
      end
  | Return _ => False
  | Fault c => c = LabelOverrun /\ (20 <= String.length type)%nat
  end.
Proof.
  unfold create_bucket.
  destruct (alloc h) as [ok1 h1] eqn:E1. apply alloc_In in E1 as [F1 I1].
  destruct ok1; simpl; [|split; [exact I1|exact (F1 eq_refl)]].
  destruct (alloc h1) as [ok2 h2] eqn:E2. apply alloc_In in E2 as [F2 I2].
  destruct ok2; simpl; [|split; [auto|exact (I1 _ (F2 eq_refl))]].
  unfold strcpy20.
  destruct (Z.leb_spec 20 (Z.of_nat (String.length type))); simpl.
  - split; [reflexivity|lia].
  - split; [auto|]. repeat split; lia.
Qed.

Lemma find_or_create_cases (slot : option Portfolio) (type : string) (h : Heap) :
  match find_or_create slot type h with
  | Ok (p, h') =>
      (forall x, In x h' -> In x h) /\
      match slot with
      | Some q => p = q
      | None => type_name p = type /\ (String.length type < 20)%nat /\
                returns p = [] /\ day_count p = 0 /\ capacity p = 50
      end
  | Return c => c = 1 /\ In false h
  | Fault c => slot = None /\ c = LabelOverrun /\ (20 <= String.length type)%nat
  end.
Proof.
  unfold find_or_create. destruct slot as [q|]; [split; auto|].
  pose proof (create_bucket_cases type h) as H.
  destruct (create_bucket type h) as [[created h']|c|c]; simpl.
  - destruct H as [Hi Hc]. destruct created as [p|]; [split; assumption|].
    split; [reflexivity|exact Hc].
  - destruct H.
  - split; [reflexivity|exact H].
Qed.

Lemma append_entry_cases (b : Table) (index : Z) (p : Portfolio)
    (v : spec_float) (h : Heap) :
  match append_entry b index p v h with
  | Ok (b', h') =>
      (forall x, In x h' -> In x h) /\
      exists cap, b' = set_bucket b index (push_return p cap v)
  | Return c => c = 1 /\ In false h
  | Fault _ => False
  end.
Proof.
  unfold append_entry. destruct (capacity p <=? day_count p).
  - destruct (alloc h) as [ok h1] eqn:E. apply alloc_In in E as [F I].
    destruct ok; simpl; [split; eauto|split; [reflexivity|exact (F eq_refl)]].
  - split; eauto.
Qed.

Section Stops.
Variable atof : string -> spec_float.

(** The line carries a label that does not fit the 20 bytes of [type]. *)
Lemma load_cases (line : string) (data : RawData) :
  match load atof line data with
  | Ok entry =>
      entry = data \/
      (String.length (raw_type entry) < 20)%nat /\
      exists f1 f2 rest, fields line = f1 :: f2 :: rest /\
        entry = {| raw_type := cut_crlf f1;
                   raw_value := float_of_double (atof f2) |}
  | Return _ => False
  | Fault c => c = LabelOverrun /\ long_label line
  end.
Proof.
  rewrite load_fields. unfold long_label.
  destruct (fields line) as [|f1 [|f2 rest]]; [left; reflexivity..|].
  destruct (Z.leb_spec 20 (Z.of_nat (String.length (cut_crlf f1)))).
  - split; [reflexivity|]. exists f1, f2, rest. split; [reflexivity|lia].
  - right. split; [simpl; lia|]. exists f1, f2, rest. split; reflexivity.
Qed.

Lemma ingest_line_cases (r : Run) (buffer : string) :
  length (buckets r) = Z.to_nat TABLE_SIZE ->
  match ingest_line atof r buffer with
  | Ok r' =>
      (forall x, In x (heap r') -> In x (heap r)) /\
      ((String.length (raw_type (current_entry r)) < 20)%nat ->
       (String.length (raw_type (current_entry r')) < 20)%nat)
  | Return c => c = 1 /\ In false (heap r)
  | Fault c =>
      c = LabelOverrun /\
      ((20 <= String.length (raw_type (current_entry r)))%nat \/ long_label buffer)
  end.
Proof.
  intros Hlen. unfold ingest_line.
  pose proof (load_cases buffer (current_entry r)) as Hl.
  destruct (load atof buffer (current_entry r)) as [entry|c|c]; simpl;
    [|destruct Hl|destruct Hl as [-> Hl]; split; [reflexivity|right; exact Hl]].
  unfold read_bucket.
  destruct (bucket_at_Some (buckets r) (hash (raw_type entry)) Hlen
              (hash_range _)) as (slot & -> & _). simpl.
  pose proof (find_or_create_cases slot (raw_type entry) (heap r)) as Hf.
  destruct (find_or_create slot (raw_type entry) (heap r)) as [[p h1]|c|c]; simpl.
  - destruct Hf as [Hi _].
    pose proof (append_entry_cases (buckets r) (hash (raw_type entry)) p
                  (raw_value entry) h1) as Ha.
    destruct (append_entry (buckets r) (hash (raw_type entry)) p
                (raw_value entry) h1) as [[b h2]|c|c]; simpl.
    + destruct Ha as [Hi2 _]. split; [auto|].
      intros Hcur. destruct Hl as [->|[Hs _]]; assumption.
    + destruct Ha as [-> Ha]. split; [reflexivity|auto].
    + destruct Ha.
  - exact Hf.
  - destruct Hf as (_ & -> & Hf). split; [reflexivity|].
    destruct Hl as [->|[Hs _]]; [left; exact Hf|lia].
Qed.

Lemma ingest_cases (lines : list string) (r : Run) :
  length (buckets r) = Z.to_nat TABLE_SIZE ->
  match ingest atof r lines with
  | Ok r' => forall x, In x (heap r') -> In x (heap r)
  | Return c => c = 1 /\ In false (heap r)
  | Fault c =>
      c = LabelOverrun /\
      ((20 <= String.length (raw_type (current_entry r)))%nat \/
       exists buffer, In buffer lines /\ long_label buffer)
  end.
Proof.
  revert r. induction lines as [|buffer lines IH]; intros r Hlen; simpl.
  - auto.
  - pose proof (ingest_line_cases r buffer Hlen) as H1.
    destruct (ingest_line atof r buffer) as [r1|c|c] eqn:E1; simpl.
    + destruct H1 as [Hi Hcur].
      assert (Hlen1 : length (buckets r1) = Z.to_nat TABLE_SIZE).
      { destruct (ingest_line_Ok atof r r1 buffer E1) as (_ & _ & _ & Hl & _).
        rewrite Hl. exact Hlen. }
      specialize (IH r1 Hlen1).
      destruct (ingest atof r1 lines) as [r2|c|c].
      * auto.
      * destruct IH as [-> IH]. split; [reflexivity|auto].
      * destruct IH as [-> IH]. split; [reflexivity|].
        destruct IH as [IH|(b & Hb & Hlong)].
        -- destruct (Nat.lt_ge_cases (String.length (raw_type (current_entry r))) 20)
             as [Hlt|Hge]; [|left; exact Hge].
           specialize (Hcur Hlt). lia.
        -- right. exists b. split; [right; exact Hb|exact Hlong].
    + exact H1.
    + destruct H1 as [-> H1]. split; [reflexivity|].
      destruct H1 as [H1|H1]; [left; exact H1|].
      right. exists buffer. split; [left; reflexivity|exact H1].
Qed.

End Stops.

(** ** Invariants of the table *)

Section Ingestion.
Variable atof : string -> spec_float.

(** One iteration, in full: the bucket found or created, and the table
    after the append. *)
Lemma ingest_line_step (r r' : Run) (buffer : string) :
  ingest_line atof r buffer = Ok r' ->
  exists entry slot p cap,
    load atof buffer (current_entry r) = Ok entry /\
    current_entry r' = entry /\
    bucket_at (buckets r) (hash (raw_type entry)) = Some slot /\
    match slot with
    | Some q => p = q
    | None => type_name p = raw_type entry /\
              (String.length (raw_type entry) < 20)%nat /\
              returns p = [] /\ day_count p = 0 /\ capacity p = 50
    end /\
    buckets r'
    = set_bucket (buckets r) (hash (raw_type entry))
        (push_return p cap (raw_value entry)).
Proof.
  unfold ingest_line. intros H.
  apply bind_Ok in H as (entry & Hload & H). cbv zeta in H.
  apply bind_Ok in H as (slot & Hslot & H). apply read_bucket_Ok in Hslot.
  apply bind_Ok in H as ([p h] & Hp & H).
  apply bind_Ok in H as ([b h1] & Hb & H). injection H as <-.
  pose proof (find_or_create_cases slot (raw_type entry) (heap r)) as Hf.
  rewrite Hp in Hf. destruct Hf as [_ Hf].
  pose proof (append_entry_cases (buckets r) (hash (raw_type entry)) p
                (raw_value entry) h) as Ha.
  rewrite Hb in Ha. destruct Ha as [_ [cap ->]].
  exists entry, slot, p, cap. simpl. auto.
Qed.

(** Buckets are never removed or renamed, and a series only grows at its
    end. *)
Lemma ingest_line_grows (r r' : Run) (buffer : string) (index : Z)
    (p : Portfolio) :
  ingest_line atof r buffer = Ok r' ->
  bucket_at (buckets r) index = Some (Some p) ->
  exists p' more,
    bucket_at (buckets r') index = Some (Some p') /\
    type_name p' = type_name p /\ returns p' = returns p ++ more.
Proof.
  intros H Hp.
  destruct (ingest_line_step r r' buffer H)
    as (entry & slot & q & cap & _ & _ & Hslot & Hq & ->).
  destruct (Z.eq_dec index (hash (raw_type entry))) as [->|Hne].
  - rewrite Hp in Hslot. injection Hslot as <-. subst q.
    exists (push_return p cap (raw_value entry)), [raw_value entry].
    split; [eapply bucket_at_set_eq, Hp|]. split; reflexivity.
  - exists p, []. rewrite app_nil_r.
    apply bucket_at_lookup in Hp as Hp'. destruct Hp' as [Hi _].
    pose proof (hash_range (raw_type entry)).
    rewrite bucket_at_set_other by lia. auto.
Qed.

Lemma ingest_grows (lines : list string) (r r' : Run) (index : Z)
    (p : Portfolio) :
  ingest atof r lines = Ok r' ->
  bucket_at (buckets r) index = Some (Some p) ->
  exists p' more,
    bucket_at (buckets r') index = Some (Some p') /\
    type_name p' = type_name p /\ returns p' = returns p ++ more.
Proof.
  revert r p. induction lines as [|buffer lines IH]; intros r p H Hp; simpl in H.
  - injection H as <-. exists p, []. rewrite app_nil_r. auto.
  - apply bind_Ok in H as (r1 & E & H).
    destruct (ingest_line_grows r r1 buffer index p E Hp)
      as (p1 & more1 & Hp1 & Hn1 & Hr1).
    destruct (IH r1 p1 H Hp1) as (p2 & more2 & Hp2 & Hn2 & Hr2).
    exists p2, (more1 ++ more2). split; [exact Hp2|].
    split; [congruence|]. rewrite Hr2, Hr1, app_assoc. reflexivity.
Qed.

(** Every bucket carries a label that hashes to the bucket's own index and
    fits its array, and holds at least one observation. *)
Lemma ingest_line_labels (r r' : Run) (buffer : string) :
  (forall index p, bucket_at (buckets r) index = Some (Some p) ->
     hash (type_name p) = index /\ (String.length (type_name p) < 20)%nat /\
     1 <= day_count p) ->
  ingest_line atof r buffer = Ok r' ->
  forall index p, bucket_at (buckets r') index = Some (Some p) ->
    hash (type_name p) = index /\ (String.length (type_name p) < 20)%nat /\
    1 <= day_count p.
Proof.
  intros Hinv H index p' Hp'.
  destruct (ingest_line_step r r' buffer H)
    as (entry & slot & q & cap & _ & _ & Hslot & Hq & Hb).
  rewrite Hb in Hp'.
  destruct (Z.eq_dec index (hash (raw_type entry))) as [->|Hne].
  - rewrite (bucket_at_set_eq _ _ _ _ Hslot) in Hp'. injection Hp' as <-.
    simpl. destruct slot as [q0|].
    + subst q0. destruct (Hinv _ _ Hslot) as (Hh & Hl & Hd). lia.
    + destruct Hq as (-> & Hl & _ & -> & _). lia.
  - pose proof (hash_range (raw_type entry)).
    apply bucket_at_lookup in Hp' as Hi. destruct Hi as [Hi _].
    rewrite bucket_at_set_other in Hp' by lia. exact (Hinv _ _ Hp').
Qed.

Lemma ingest_labels (lines : list string) (r r' : Run) :
  (forall index p, bucket_at (buckets r) index = Some (Some p) ->
     hash (type_name p) = index /\ (String.length (type_name p) < 20)%nat /\
     1 <= day_count p) ->
  ingest atof r lines = Ok r' ->
  forall index p, bucket_at (buckets r') index = Some (Some p) ->
    hash (type_name p) = index /\ (String.length (type_name p) < 20)%nat /\
    1 <= day_count p.
Proof.
  revert r. induction lines as [|buffer lines IH]; intros r Hinv H; simpl in H.
  - injection H as <-. exact Hinv.
  - apply bind_Ok in H as (r1 & E & H).
    exact (IH r1 (ingest_line_labels r r1 buffer Hinv E) H).
Qed.

Lemma observations_cons (slot : option Portfolio) (b : Table) :
  observations (slot :: b)
  = match slot with Some p => day_count p | None => 0 end + observations b.
Proof. unfold observations. simpl. destruct slot; lia. Qed.

Lemma observations_insert (b : list (option Portfolio)) (i : nat)
    (slot : option Portfolio) (p : Portfolio) :
  b !! i = Some slot ->
  observations (<[i := Some p]> b)
  = observations b - match slot with Some q => day_count q | None => 0 end
    + day_count p.
Proof.
  revert i. induction b as [|s b IH]; intros i H; [discriminate|].
  destruct i as [|i]; simpl in H.
  - injection H as ->.
    change (<[0%nat := Some p]> (slot :: b)) with (Some p :: b).
    rewrite !observations_cons. lia.
  - change (<[S i := Some p]> (s :: b)) with (s :: <[i := Some p]> b).
    rewrite !observations_cons, (IH i H). lia.
Qed.

Lemma ingest_line_observations (r r' : Run) (buffer : string) :
  ingest_line atof r buffer = Ok r' ->
  observations (buckets r') = observations (buckets r) + 1.
Proof.
  intros H.
  destruct (ingest_line_step r r' buffer H)
    as (entry & slot & q & cap & _ & _ & Hslot & Hq & ->).
  apply bucket_at_lookup in Hslot as [_ Hl]. unfold set_bucket, Table in *.
  rewrite (observations_insert _ _ _ _ Hl). simpl.
  destruct slot as [q0|]; [subst q0; lia|].
  destruct Hq as (_ & _ & _ & -> & _). lia.
Qed.

Lemma ingest_observations (lines : list string) (r r' : Run) :
  ingest atof r lines = Ok r' ->
  observations (buckets r')
  = observations (buckets r) + Z.of_nat (length lines).
Proof.
  revert r. induction lines as [|buffer lines IH]; intros r H; simpl in H.
  - injection H as <-. simpl. lia.
  - apply bind_Ok in H as (r1 & E & H).
    rewrite (IH r1 H), (ingest_line_observations r r1 buffer E).
    simpl length. lia.
Qed.

(** A well-formed line leaves its value in the bucket of its label. *)
Lemma ingest_line_stores (r r' : Run) (buffer f1 f2 : string)
    (rest : list string) :
  fields buffer = f1 :: f2 :: rest ->
  ingest_line atof r buffer = Ok r' ->
  exists p, bucket_at (buckets r') (hash (cut_crlf f1)) = Some (Some p) /\
            In (float_of_double (atof f2)) (returns p).
Proof.
  intros Hf H.
  destruct (ingest_line_Ok atof r r' buffer H)
    as (entry & Hload & _ & _ & (p & _ & Hp & Hret) & _).
  rewrite load_fields, Hf in Hload.
  destruct (20 <=? Z.of_nat (String.length (cut_crlf f1))); [discriminate|].
  injection Hload as <-. simpl in *.
  exists p. split; [exact Hp|]. rewrite Hret. apply in_or_app. right. left.
  reflexivity.
Qed.

Lemma ingest_stores (lines : list string) (r r' : Run) (buffer f1 f2 : string)
    (rest : list string) :
  In buffer lines -> fields buffer = f1 :: f2 :: rest ->
  ingest atof r lines = Ok r' ->
  exists p, bucket_at (buckets r') (hash (cut_crlf f1)) = Some (Some p) /\
            In (float_of_double (atof f2)) (returns p).
Proof.
  revert r. induction lines as [|line lines IH]; intros r Hin Hf H; [destruct Hin|].
  simpl in H. apply bind_Ok in H as (r1 & E & H).
  destruct Hin as [->|Hin]; [|exact (IH r1 Hin Hf H)].
  destruct (ingest_line_stores r r1 buffer f1 f2 rest Hf E) as (p & Hp & Hv).
  destruct (ingest_grows lines r1 r' _ p H Hp) as (p' & more & Hp' & _ & Hr).
  exists p'. split; [exact Hp'|]. rewrite Hr. apply in_or_app. left. exact Hv.
Qed.

End Ingestion.

Lemma empty_table_blank (index : Z) (p : Portfolio) :
  bucket_at empty_table index <> Some (Some p).
Proof.
  unfold bucket_at, empty_table.
  destruct ((0 <=? index) && (index <? TABLE_SIZE)); [|discriminate].
  intros H. apply lookup_replicate in H as [H _]. discriminate.
Qed.

(** X7: The ingestion loop stops early in two ways only.  With return code 1,
    and then an allocation has failed.  By writing past the 20 bytes of a
    label array, and then a line carries a label of 20 characters or more,
    or the entry held such a label before the first well-formed line.  When
    neither can happen the loop runs to the end of the file. *)
Theorem ingest_stops_on_allocation_or_long_label (atof : string -> spec_float)
    (entry0 : RawData) (h : Heap) (lines : list string) :
  (forall c, ingest atof (start_run entry0 h) lines = Return c ->
     c = 1 /\ In false h) /\
  (forall c, ingest atof (start_run entry0 h) lines = Fault c ->
     c = LabelOverrun /\
     ((20 <= String.length (raw_type entry0))%nat \/
      exists buffer, In buffer lines /\ long_label buffer)) /\
  ((forall ok, In ok h -> ok = true) ->
   (String.length (raw_type entry0) < 20)%nat ->
   (forall buffer, In buffer lines -> ~ long_label buffer) ->
   exists r, ingest atof (start_run entry0 h) lines = Ok r).
Proof.
  pose proof (ingest_cases atof lines (start_run entry0 h) eq_refl) as H.
  assert (Hh : forall x, In x (heap (start_run entry0 h)) -> In x h).
  { unfold start_run. simpl. destruct (alloc h) as [ok h'] eqn:E.
    apply alloc_In in E as [_ E]. exact E. }
  destruct (ingest atof (start_run entry0 h) lines) as [r|c|c].
  - split; [discriminate|]. split; [discriminate|]. eauto.
  - destruct H as [-> H]. split; [|split; [discriminate|]].
    + intros c [= <-]. auto.
    + intros Hok _ _. specialize (Hok false (Hh _ H)). discriminate.
  - destruct H as [-> H]. split; [discriminate|]. split.
    + intros c [= <-]. auto.
    + intros _ Hs Hl. exfalso. destruct H as [H|(b & Hb & H)].
      * simpl in H. lia.
      * exact (Hl b Hb H).
Qed.

(** X8: After ingestion every bucket carries a label that hashes to the
    bucket's own index and fits [type_name], and holds at least one
    observation: [mean] is never called on an empty series. *)
Theorem buckets_are_labelled_and_non_empty (atof : string -> spec_float)
    (entry0 : RawData) (h : Heap) (lines : list string) (r : Run) :
  ingest atof (start_run entry0 h) lines = Ok r ->
  forall index p, bucket_at (buckets r) index = Some (Some p) ->
    hash (type_name p) = index /\ (String.length (type_name p) < 20)%nat /\
    1 <= day_count p.
Proof.
  intros H. refine (ingest_labels atof lines _ r _ H).
  intros index p Hp. destruct (empty_table_blank index p Hp).
Qed.

Lemma buckets_are_labelled_and_non_empty_witness :
  hash (type_name two_lines_bucket) = hash "STOCKS" /\
  (String.length (type_name two_lines_bucket) < 20)%nat /\
  1 <= day_count two_lines_bucket.
Proof.
  apply (buckets_are_labelled_and_non_empty Ref.atof blank_entry [] two_lines
           two_lines_run eq_refl (hash "STOCKS")).
  reflexivity.
Defined.

(** X9: Ingestion never removes or renames a bucket, and it changes a series
    only by appending to it: a label that collides with an earlier one adds
    its values under the earlier label. *)
Theorem ingestion_only_appends (atof : string -> spec_float)
    (lines : list string) (r r' : Run) (index : Z) (p : Portfolio) :
  ingest atof r lines = Ok r' ->
  bucket_at (buckets r) index = Some (Some p) ->
  exists p' more,
    bucket_at (buckets r') index = Some (Some p') /\
    type_name p' = type_name p /\ returns p' = returns p ++ more.
Proof. apply ingest_grows. Qed.

Lemma ingestion_only_appends_witness :
  exists r' p' more,
    ingest Ref.atof two_lines_run ["Bonds,0.5"%string] = Ok r' /\
    bucket_at (buckets r') (hash "Bonds") = Some (Some p') /\
    type_name p' = "Stocks"%string /\
    returns p' = returns two_lines_bucket ++ more.
Proof.
  eexists.
  assert (Hb : bucket_at (buckets two_lines_run) (hash "Bonds")
               = Some (Some two_lines_bucket)) by reflexivity.
  match goal with
  | |- exists p' more, ingest ?a ?r0 ?l = Ok ?r1 /\ _ =>
      assert (Hr : ingest a r0 l = Ok r1) by (vm_compute; reflexivity);
      destruct (ingestion_only_appends a l r0 r1 (hash "Bonds")
                  two_lines_bucket Hr Hb) as (p' & more & H1 & H2 & H3)
  end.
  exists p', more. split; [vm_compute; reflexivity|]. auto.
Defined.

(** X10: Every line read adds exactly one observation to the table, whether or
    not it is well formed. *)
Theorem every_line_adds_one_observation (atof : string -> spec_float)
    (entry0 : RawData) (h : Heap) (lines : list string) (r : Run) :
  ingest atof (start_run entry0 h) lines = Ok r ->
  observations (buckets r) = Z.of_nat (length lines).
Proof.
  intros H. rewrite (ingest_observations atof lines _ r H). reflexivity.
Qed.

Lemma every_line_adds_one_observation_witness :
  observations (buckets two_lines_run) = Z.of_nat (length two_lines).
Proof.
  exact (every_line_adds_one_observation Ref.atof blank_entry [] two_lines
           two_lines_run eq_refl).
Defined.

(** X11: Insert and look up: after ingestion, the value of every line with two
    fields is in the series of the bucket its label hashes to. *)
Theorem ingested_record_is_stored (atof : string -> spec_float)
    (entry0 : RawData) (h : Heap) (lines : list string) (r : Run)
    (buffer f1 f2 : string) (rest : list string) :
  ingest atof (start_run entry0 h) lines = Ok r ->
  In buffer lines -> fields buffer = f1 :: f2 :: rest ->
  exists p, bucket_at (buckets r) (hash (cut_crlf f1)) = Some (Some p) /\
            In (float_of_double (atof f2)) (returns p).
Proof.
  intros H Hin Hf. exact (ingest_stores atof lines _ r buffer f1 f2 rest Hin Hf H).
Qed.

Lemma ingested_record_is_stored_witness :
  exists p, bucket_at (buckets two_lines_run) (hash "Stocks") = Some (Some p) /\
            In (float_of_double (Ref.atof "0.01")) (returns p).
Proof.
  exact (ingested_record_is_stored Ref.atof blank_entry [] two_lines
           two_lines_run "Stocks,0.01" "Stocks" "0.01" [] eq_refl
           (or_introl eq_refl) eq_refl).
Defined.

(** ** Signs and exact quotients *)

Lemma binary_round_aux_sign (prec emax : Z) (sx : bool) (mx ex : Z)
    (lx : location) :
  match binary_round_aux prec emax sx mx ex lx with
  | S754_zero s | S754_infinity s | S754_finite s _ _ => s = sx
  | S754_nan => True
  end.
Proof.
  unfold binary_round_aux.
  destruct (shr_fexp prec emax mx ex lx) as [mrs' e'].
  destruct (shr_fexp prec emax _ e' loc_Exact) as [mrs'' e''].
  destruct (shr_m mrs''); [reflexivity| |exact I].
  destruct (e'' <=? emax - prec); reflexivity.
Qed.

Lemma float_of_double_not_negative (x : spec_float) :
  not_negative x -> not_negative (float_of_double x).
Proof.
  destruct x as [s|s| |s m e]; simpl; auto. intros ->. simpl.
  unfold binary_round. destruct (shl_align m e _) as [mz ez].
  pose proof (binary_round_aux_sign F32.prec F32.emax false (Zpos mz) ez loc_Exact) as H.
  destruct (binary_round_aux F32.prec F32.emax false (Zpos mz) ez loc_Exact);
    simpl; auto.
Qed.

Lemma sqrt_not_negative (x : spec_float) : not_negative (F64.sqrt x).
Proof.
  unfold F64.sqrt. destruct x as [s|[]| |[] m e]; simpl; auto.
  destruct (SFsqrt_core_binary F64.prec F64.emax (Zpos m) e) as [[mz ez] lz].
  pose proof (binary_round_aux_sign F64.prec F64.emax false mz ez lz) as H.
  destruct (binary_round_aux F64.prec F64.emax false mz ez lz); simpl; auto.
Qed.

Lemma not_negative_order (x : spec_float) :
  not_negative x ->
  F32.ltb x F32.zero = false /\ (is_nan x = false -> SFleb F32.zero x = true).
Proof.
  destruct x as [s|s| |s m e]; simpl; intros H; subst; split;
    try reflexivity; try discriminate; auto.
Qed.

(** X12: [stand_dev] never returns a negative deviation: the result is NaN, a
    zero, or a value above zero. *)
Theorem stand_dev_is_never_negative (data : list spec_float) (count : Z)
    (m : spec_float) :
  F32.ltb (stand_dev data count m) F32.zero = false /\
  (is_nan (stand_dev data count m) = false ->
   SFleb F32.zero (stand_dev data count m) = true).
Proof.
  apply not_negative_order. unfold stand_dev.
  destruct (count <? 2); [exact I|].
  apply float_of_double_not_negative, sqrt_not_negative.
Qed.

(** ** The export *)

Lemma sub_zero32 (v : spec_float) : F32.sub v (S754_zero false) = v.
Proof. destruct v as [[]|[]| |s m e]; reflexivity. Qed.

Lemma div32_by_one_finite (s : bool) (m : positive) (e : Z) :
  bounded 24 128 m e = true ->
  F32.div (S754_finite s m e) (F32.of_Z 1) = S754_finite s m e.
Proof.
  intros Hb. destruct (bounded32 m e Hb) as (Hc & Hd & He).
  pose proof (canonical_fexp 24 128 m e Hc) as Hf.
  pose proof (digits_pos m) as Hd1.
  change (F32.of_Z 1) with (S754_finite false 8388608 (-23)).
  unfold F32.div, SFdiv, SFdiv_core_binary.
  change (Zdigits2 (Zpos m)) with (digits m).
  change (Zdigits2 (Zpos 8388608)) with 24.
  change F32.prec with 24. change F32.emax with 128.
  set (f := fexp 24 128 (digits m + e - (24 + -23))).
  assert (Hp : f = e \/ f = e - 1).
  { unfold f, fexp, emin in *. lia. }
  assert (Hmin : Z.min f (e - -23) = f) by lia. rewrite Hmin.
  assert (Hs : e - -23 - f = 23 + (e - f)) by lia. rewrite Hs.
  destruct (23 + (e - f)) as [|k|k] eqn:Ek; [lia| |lia]. rewrite <- Ek.
  rewrite Z.shiftl_mul_pow2 by lia.
  rewrite Z.pow_add_r by lia.
  replace (Zpos m * (2 ^ 23 * 2 ^ (e - f)))
    with (Zpos m * 2 ^ (e - f) * 8388608) by (change (2 ^ 23) with 8388608; lia).
  rewrite div_eucl_exact, Z.div_mul, Z.mod_mul by lia.
  change (new_location 8388608 0) with loc_Exact.
  rewrite xorb_false_r, <- Zpos_shlp by lia.
  replace f with (e - (e - f)) at 2 by lia.
  apply binary_round_aux_exact; [exact Hc|lia|lia].
Qed.

Lemma div32_by_one (v : spec_float) :
  F32.valid v = true -> F32.div v (F32.of_Z 1) = v.
Proof.
  destruct v as [[]|[]| |s m e]; try reflexivity.
  intros Hv. apply div32_by_one_finite. exact Hv.
Qed.

(** The normalisation with [floor = 0] and [cap = 1] changes nothing: the
    percentage is the value times 100. *)
Lemma percentage_unit (v : spec_float) :
  F32.valid v = true ->
  percentage v (float_of_double F64.zero) (F32.of_Z 1)
  = F32.mul v (F32.of_Z 100).
Proof.
  intros Hv. unfold percentage.
  change (float_of_double F64.zero) with (S754_zero false).
  rewrite sub_zero32.
  change (F32.sub (F32.of_Z 1) (S754_zero false)) with (F32.of_Z 1).
  rewrite (div32_by_one v Hv). reflexivity.
Qed.

(** X13: [send2python] fails only on a NULL portfolio.  Otherwise it prints one
    line under the label stored in the bucket, whatever [user_query] is:
    the mean as stored, 100 less 100 times the deviation, and the smaller
    and the larger of the two estimates, each times 100. *)
Theorem send2python_reports_hundredfold (p : Portfolio) (user_query : string) :
  F32.valid (std_dev p) = true -> F32.valid (worst_case p) = true ->
  F32.valid (worst_case_rieman p) = true ->
  send2python None user_query = (1, []) /\
  send2python (Some p) user_query
  = (0, [ {| rep_type_name := type_name p;
             rep_mean := pf_mean p;
             rep_stability :=
               F32.sub (F32.of_Z 100) (F32.mul (std_dev p) (F32.of_Z 100));
             rep_min_percentage :=
               F32.mul (if F32.ltb (worst_case p) (worst_case_rieman p)
                        then worst_case p else worst_case_rieman p)
                 (F32.of_Z 100);
             rep_max_percentage :=
               F32.mul (if F32.ltb (worst_case p) (worst_case_rieman p)
                        then worst_case_rieman p else worst_case p)
                 (F32.of_Z 100) |} ]).
Proof.
  intros Hs Hw Hr. split; [reflexivity|]. unfold send2python.
  destruct (F32.ltb (worst_case p) (worst_case_rieman p));
    rewrite !percentage_unit by assumption; reflexivity.
Qed.

Lemma send2python_reports_hundredfold_witness :
  send2python
    (Some {| type_name := "Stocks"; returns := []; day_count := 0;
             capacity := 50; pf_mean := one_percent; std_dev := one_percent;
             worst_case := F32.of_Z (-2); worst_case_rieman := F32.of_Z (-1) |})
    "bonds"
  = (0, [ {| rep_type_name := "Stocks";
             rep_mean := one_percent;
             rep_stability := F32.of_Z 99;
             rep_min_percentage := F32.of_Z (-200);
             rep_max_percentage := F32.of_Z (-100) |} ]).
Proof.
  exact (proj2 (send2python_reports_hundredfold
                  {| type_name := "Stocks"; returns := []; day_count := 0;
                     capacity := 50; pf_mean := one_percent;
                     std_dev := one_percent; worst_case := F32.of_Z (-2);
                     worst_case_rieman := F32.of_Z (-1) |}
                  "bonds" eq_refl eq_refl eq_refl)).
Defined.

(** ** The sampler and the estimators on the path of [main] *)

Section Pipeline.
Variables expf logf cosf sinf : spec_float -> spec_float.
Variable rand : nat -> Z.
Variable RAND_MAX : Z.
Variable qsort :
  (spec_float -> spec_float -> Z) -> list spec_float -> list spec_float.

Lemma synth_loop_length (mean deviation : spec_float) (pairs k : nat) :
  length (synth_loop logf cosf sinf rand RAND_MAX mean deviation pairs k)
  = (2 * pairs)%nat.
Proof.
  revert k. induction pairs as [|pairs IH]; intros k; [reflexivity|].
  cbn [synth_loop length]. rewrite IH. lia.
Qed.

Lemma synth_loop_nan (mean : spec_float) (pairs k : nat) :
  Forall (fun x => x = S754_nan)
    (synth_loop logf cosf sinf rand RAND_MAX mean S754_nan pairs k).
Proof.
  revert k. induction pairs as [|pairs IH]; intros k; [constructor|].
  cbn [synth_loop].
  assert (Hn : forall g, F32.add (F32.mul g S754_nan) mean = S754_nan).
  { intros g. unfold F32.mul, F32.add. destruct g; reflexivity. }
  rewrite !Hn. repeat constructor. apply IH.
Qed.

Lemma synth_data_generator_cases (mean deviation : spec_float) (h : Heap) :
  synth_data_generator logf cosf sinf rand RAND_MAX mean deviation h
  = if fst (alloc h)
    then (Some (synth_loop logf cosf sinf rand RAND_MAX mean deviation
                  (Z.to_nat 5000) 0), snd (alloc h))
    else (None, snd (alloc h)).
Proof.
  unfold synth_data_generator. destruct (alloc h) as [[] h']; reflexivity.
Qed.

Lemma send2python_prints_one (p : Portfolio) (user_query : string) :
  exists line, send2python (Some p) user_query = (0, [line]).
Proof.
  unfold send2python.
  destruct (F32.ltb (worst_case p) (worst_case_rieman p)); eexists; reflexivity.
Qed.

Lemma rieman_stored_part (fuel : nat) (data : list spec_float)
    (mean deviation : spec_float) (adress p : Portfolio) :
  rieman expf fuel data mean deviation adress = Some p ->
  stored_part p = stored_part adress.
Proof.
  unfold rieman.
  destruct (rieman_loop expf fuel mean deviation _ _) as [x|]; [|discriminate].
  intros [= <-]. reflexivity.
Qed.

Lemma analyse_target_cases (fuel : nat) (b : Table) (h : Heap) (target : string)
    (o : Outcome) :
  length b = Z.to_nat TABLE_SIZE ->
  analyse_target expf logf cosf sinf rand RAND_MAX qsort fuel b h target = Some o ->
  (final_buckets o = b \/
   exists p q, bucket_at b (hash target) = Some (Some p) /\
               stored_part q = stored_part p /\
               final_buckets o = set_bucket b (hash target) q) /\
  ((exit o = Exited 0 /\ (exists line, stdout o = [line]) /\
    calls o = [CallSynth; CallAnalyze; CallRieman; CallSend]) \/
   (stdout o = [] /\
    (exit o = Exited 2 \/ exit o = Exited 3 \/
     (exit o = Crashed NullSample /\ In false h)))).
Proof.
  intros Hlen. unfold analyse_target. cbv zeta.
  destruct (bucket_at_Some b (hash target) Hlen (hash_range _))
    as (slot & Hslot & _).
  rewrite Hslot. destruct slot as [p|].
  2:{ intros [= <-]. split; [left; reflexivity|]. right. simpl. auto. }
  destruct (F64.eqb _ F64.zero).
  { intros [= <-]. split.
    - right. exists p, (set_mean p (mean (returns p) (day_count p))). auto.
    - right. simpl. auto. }
  rewrite synth_data_generator_cases.
  destruct (alloc h) as [ok h'] eqn:Ea. apply alloc_In in Ea as [Ea _].
  destruct ok; cbn [fst snd].
  2:{ intros [= <-]. split.
      - right. eexists p, _. split; [reflexivity|]. split; [|reflexivity].
        reflexivity.
      - right. simpl. split; [reflexivity|]. right. right.
        split; [reflexivity|exact (Ea eq_refl)]. }
  unfold analyze. cbv zeta.
  match goal with
  | |- match rieman ?e ?f ?d ?m ?s ?a with _ => _ end = _ -> _ =>
      destruct (rieman e f d m s a) as [p1|] eqn:Er; [|discriminate];
      pose proof (rieman_stored_part f d m s a p1 Er) as Hp1
  end.
  change (stored_part p1 = stored_part p) in Hp1.
  destruct (send2python_prints_one p1 target) as [line Hline]. rewrite Hline.
  intros [= <-]. split.
  - right. exists p, p1. auto.
  - left. simpl. eauto.
Qed.

End Pipeline.

Section Estimators.
Variables expf logf cosf sinf : spec_float -> spec_float.
Variable rand : nat -> Z.
Variable RAND_MAX : Z.
Variable qsort :
  (spec_float -> spec_float -> Z) -> list spec_float -> list spec_float.

Lemma synth_loop_skipn (mean deviation : spec_float) (i pairs k : nat) :
  skipn (2 * i) (synth_loop logf cosf sinf rand RAND_MAX mean deviation (i + pairs) k)
  = synth_loop logf cosf sinf rand RAND_MAX mean deviation pairs (k + 2 * i).
Proof.
  revert k. induction i as [|i IH]; intros k.
  - simpl. rewrite Nat.add_0_r. reflexivity.
  - replace (2 * S i)%nat with (S (S (2 * i))) by lia.
    cbn [Nat.add synth_loop skipn]. rewrite IH. f_equal. lia.
Qed.

Lemma analyze_snd (data : list spec_float) (bucket : Portfolio) :
  snd (analyze qsort data bucket)
  = set_worst_case bucket
      (array_get (qsort compare (firstn (Z.to_nat 10000) data)
                    ++ skipn (Z.to_nat 10000) data) 499).
Proof. reflexivity. Qed.

Lemma array_get_nan (l : list spec_float) (i : nat) :
  Forall (fun x => x = S754_nan) l -> array_get l i = S754_nan.
Proof.
  unfold array_get. intros H. revert i.
  induction H as [|x l Hx _ IH]; intros [|i]; simpl; auto.
Qed.

Lemma analyze_nan (data : list spec_float) (bucket : Portfolio) :
  (forall l, Permutation l (qsort compare l)) ->
  Forall (fun x => x = S754_nan) data ->
  snd (analyze qsort data bucket) = set_worst_case bucket S754_nan.
Proof.
  intros Hperm Hnan. rewrite analyze_snd. f_equal. apply array_get_nan.
  apply Forall_app. split.
  - eapply Permutation_Forall; [apply Hperm|]. apply Forall_take. exact Hnan.
  - apply Forall_drop. exact Hnan.
Qed.

Lemma add_nan_r (x : spec_float) : F32.add x S754_nan = S754_nan.
Proof. destruct x; reflexivity. Qed.

Lemma mul_nan_r (x : spec_float) : F32.mul x S754_nan = S754_nan.
Proof. destruct x; reflexivity. Qed.

Lemma sub_nan_r (x : spec_float) : F32.sub x S754_nan = S754_nan.
Proof. destruct x; reflexivity. Qed.

Lemma div_nan_r (x : spec_float) : F32.div x S754_nan = S754_nan.
Proof. destruct x; reflexivity. Qed.

(** With a NaN deviation the loop of [rieman] is left at its second test,
    the mass being NaN, and the estimate is NaN. *)
Lemma rieman_nan (fuel : nat) (data : list spec_float) (mean : spec_float)
    (adress : Portfolio) :
  rieman expf (S (S fuel)) data mean S754_nan adress
  = Some (set_worst_case_rieman adress S754_nan).
Proof.
  unfold rieman. cbv zeta. rewrite mul_nan_r, sub_nan_r.
  rewrite rieman_loop_S.
  change (below_target (F32.of_Z 0)) with true. cbv iota.
  assert (Hh : height expf mean S754_nan S754_nan = S754_nan).
  { unfold height. cbv zeta. rewrite div_nan_r. reflexivity. }
  rewrite Hh. change (F32.mul S754_nan step_size) with S754_nan.
  rewrite add_nan_r. change (F32.add S754_nan step_size) with S754_nan.
  rewrite rieman_loop_S. reflexivity.
Qed.

Lemma send2python_nan (p : Portfolio) (user_query : string) :
  std_dev p = S754_nan -> worst_case p = S754_nan ->
  worst_case_rieman p = S754_nan ->
  send2python (Some p) user_query
  = (0, [ {| rep_type_name := type_name p; rep_mean := pf_mean p;
             rep_stability := S754_nan; rep_min_percentage := S754_nan;
             rep_max_percentage := S754_nan |} ]).
Proof.
  intros Hs Hw Hr. unfold send2python. rewrite Hs, Hw, Hr. reflexivity.
Qed.

Lemma alloc_succeeds (h : Heap) :
  (forall ok, In ok h -> ok = true) -> fst (alloc h) = true.
Proof.
  destruct h as [|ok h]; [reflexivity|]. intros H. simpl. apply H. left.
  reflexivity.
Qed.

Lemma analyse_target_nan (fuel : nat) (b : Table) (h : Heap) (target : string)
    (p : Portfolio) :
  (forall l, Permutation l (qsort compare l)) ->
  fst (alloc h) = true ->
  bucket_at b (hash target) = Some (Some p) ->
  stand_dev (returns p) (day_count p) (mean (returns p) (day_count p)) = S754_nan ->
  exists o,
    analyse_target expf logf cosf sinf rand RAND_MAX qsort (S (S fuel)) b h target
      = Some o /\
    exit o = Exited 0 /\
    stdout o = [ {| rep_type_name := type_name p;
                    rep_mean := mean (returns p) (day_count p);
                    rep_stability := S754_nan;
                    rep_min_percentage := S754_nan;
                    rep_max_percentage := S754_nan |} ].
Proof.
  intros Hperm Halloc Hb Hsd. unfold analyse_target. cbv zeta. rewrite Hb.
  change (returns (set_mean p ?a)) with (returns p).
  change (day_count (set_mean p ?a)) with (day_count p).
  rewrite Hsd. change (F64.eqb (double_of_float S754_nan) F64.zero) with false.
  cbv iota. rewrite synth_data_generator_cases, Halloc.
  pose proof (analyze_nan
    (synth_loop logf cosf sinf rand RAND_MAX (mean (returns p) (day_count p))
       S754_nan (Z.to_nat 5000) 0)
    (set_std_dev (set_mean p (mean (returns p) (day_count p))) S754_nan)
    Hperm (synth_loop_nan _ _ _ _ _ _ _ _)) as Han.
  destruct (analyze qsort _ _) as [sorted p1]. simpl in Han. subst p1.
  rewrite rieman_nan.
  match goal with
  | |- context [send2python (Some ?q) target] =>
      rewrite (send2python_nan q target eq_refl eq_refl eq_refl)
  end.
  eexists. split; [reflexivity|]. split; reflexivity.
Qed.

End Estimators.

Lemma bucket_at_set_ne (b : Table) (i j : Z) (p : Portfolio) :
  0 <= i -> i <> j -> bucket_at (set_bucket b i p) j = bucket_at b j.
Proof.
  intros Hi Hne. unfold bucket_at, set_bucket.
  destruct (Z.leb_spec 0 j); simpl; [|reflexivity].
  destruct (j <? TABLE_SIZE); [|reflexivity].
  apply list_lookup_insert_ne. lia.
Qed.

(** X14: When its allocation succeeds the sampler fills all 10000 slots of the
    array, and entries [2i] and [2i+1] are the pair made from calls [2i] and
    [2i+1] of [rand]: no draw is used twice.  When the allocation fails it
    returns NULL. *)
Theorem synth_fills_the_sample
    (logf cosf sinf : spec_float -> spec_float) (rand : nat -> Z) (RAND_MAX : Z)
    (mean deviation : spec_float) (h : Heap) :
  match synth_data_generator logf cosf sinf rand RAND_MAX mean deviation h with
  | (Some data, h') =>
      fst (alloc h) = true /\ h' = snd (alloc h) /\
      Z.of_nat (length data) = 10000 /\
      forall i, (i < Z.to_nat 5000)%nat ->
        firstn 2 (skipn (2 * i) data)
        = synth_loop logf cosf sinf rand RAND_MAX mean deviation 1 (2 * i)
  | (None, h') => fst (alloc h) = false /\ h' = snd (alloc h)
  end.
Proof.
  rewrite synth_data_generator_cases.
  destruct (fst (alloc h)); [|split; reflexivity].
  split; [reflexivity|]. split; [reflexivity|]. split.
  - rewrite synth_loop_length. rewrite Nat2Z.inj_mul, Z2Nat.id by lia.
    reflexivity.
  - intros i Hi.
    replace (Z.to_nat 5000) with (i + S (Z.to_nat 5000 - S i))%nat by lia.
    rewrite synth_loop_skipn. reflexivity.
Qed.

(** X16: Whatever order [qsort] leaves equal or unordered values in, as long as
    it permutes the array, the stored estimate is one of the 10000 sample
    values, and [analyze] writes no other field of the bucket. *)
Theorem analyze_stores_a_sample_value
    (qsort : (spec_float -> spec_float -> Z) -> list spec_float -> list spec_float)
    (data : list spec_float) (bucket : Portfolio) :
  (forall l, Permutation l (qsort compare l)) ->
  Z.of_nat (length data) = 10000 ->
  In (worst_case (snd (analyze qsort data bucket))) data /\
  Permutation data (fst (analyze qsort data bucket)) /\
  stored_part (snd (analyze qsort data bucket)) = stored_part bucket /\
  pf_mean (snd (analyze qsort data bucket)) = pf_mean bucket /\
  std_dev (snd (analyze qsort data bucket)) = std_dev bucket /\
  worst_case_rieman (snd (analyze qsort data bucket))
  = worst_case_rieman bucket.
Proof.
  intros Hperm Hlen.
  assert (Hfirst : firstn (Z.to_nat 10000) data = data)
    by (apply firstn_all2; lia).
  assert (Hskip : skipn (Z.to_nat 10000) data = [])
    by (apply skipn_all2; lia).
  assert (Hsorted : fst (analyze qsort data bucket) = qsort compare data).
  { unfold analyze. cbv zeta. cbn [fst]. rewrite Hfirst, Hskip, app_nil_r.
    reflexivity. }
  split; [|split; [rewrite Hsorted; apply Hperm|repeat split]].
  rewrite analyze_snd, Hfirst, Hskip, app_nil_r. cbn [worst_case set_worst_case].
  apply (Permutation_in _ (Permutation_sym (Hperm data))).
  unfold array_get. apply nth_In.
  rewrite <- (Permutation_length (Hperm data)). lia.
Qed.

Lemma analyze_stores_a_sample_value_witness :
  In (worst_case (snd (analyze Ref.qsort swapped_sample blank_portfolio)))
    swapped_sample.
Proof.
  apply (analyze_stores_a_sample_value Ref.qsort swapped_sample blank_portfolio
           (qsort_perm compare)).
  vm_compute. reflexivity.
Defined.

(** ** Runs of [main] *)

Section Runs.
Variable atof : string -> spec_float.
Variables expf logf cosf sinf : spec_float -> spec_float.
Variable rand : nat -> Z.
Variable RAND_MAX : Z.
Variable qsort :
  (spec_float -> spec_float -> Z) -> list spec_float -> list spec_float.

Lemma main_unfold (fuel : nat) (argc : Z) (file : option (list string))
    (target : string) (entry0 : RawData) (h : Heap) :
  main atof expf logf cosf sinf rand RAND_MAX qsort fuel argc file target
    entry0 h
  = if negb (argc =? 3) then Some (stop (Exited 1) empty_table)
    else match file with
         | None => Some (stop (Exited 1) empty_table)
         | Some lines =>
             match ingest atof (start_run entry0 h) lines with
             | Return c => Some (stop (Exited c) empty_table)
             | Fault c => Some (stop (Crashed c) empty_table)
             | Ok r =>
                 analyse_target expf logf cosf sinf rand RAND_MAX qsort fuel
                   (buckets r) (heap r) target
             end
         end.
Proof. reflexivity. Qed.

Lemma start_heap (entry0 : RawData) (h : Heap) (x : bool) :
  In x (heap (start_run entry0 h)) -> In x h.
Proof.
  unfold start_run. simpl. destruct (alloc h) as [ok h'] eqn:E.
  apply alloc_In in E as [_ E]. apply E.
Qed.

Lemma main_cases (fuel : nat) (argc : Z) (file : option (list string))
    (target : string) (entry0 : RawData) (h : Heap) (o : Outcome) :
  main atof expf logf cosf sinf rand RAND_MAX qsort fuel argc file target
    entry0 h = Some o ->
  (exit o = Exited 0 /\ (exists line, stdout o = [line]) /\
   calls o = [CallSynth; CallAnalyze; CallRieman; CallSend]) \/
  (stdout o = [] /\
   ((exit o = Exited 1 /\ (argc <> 3 \/ file = None \/ In false h)) \/
    exit o = Exited 2 \/ exit o = Exited 3 \/
    exit o = Crashed LabelOverrun \/
    (exit o = Crashed NullSample /\ In false h))).
Proof.
  rewrite main_unfold. destruct (Z.eqb_spec argc 3) as [Ha|Ha]; simpl negb; cbv iota.
  2:{ intros [= <-]. right. simpl. split; [reflexivity|]. left. auto. }
  destruct file as [lines|].
  2:{ intros [= <-]. right. simpl. split; [reflexivity|]. left. auto. }
  pose proof (ingest_cases atof lines (start_run entry0 h) eq_refl) as Hc.
  destruct (ingest atof (start_run entry0 h) lines) as [r|c|c] eqn:Ei.
  - intros Ho.
    assert (Hlen : length (buckets r) = Z.to_nat TABLE_SIZE)
      by (rewrite (ingest_length atof lines _ r Ei); reflexivity).
    destruct (analyse_target_cases expf logf cosf sinf rand RAND_MAX qsort
                fuel (buckets r) (heap r) target o Hlen Ho) as [_ [H|[Hs H]]].
    + left. exact H.
    + right. split; [exact Hs|].
      destruct H as [H|[H|[H Hf]]]; auto.
      right. right. right. right. split; [exact H|].
      apply (start_heap entry0), Hc, Hf.
  - destruct Hc as [-> Hf]. intros [= <-]. right. simpl.
    split; [reflexivity|]. left. split; [reflexivity|].
    right. right. exact (start_heap entry0 h _ Hf).
  - destruct Hc as [-> _]. intros [= <-]. right. simpl.
    split; [reflexivity|]. right. right. right. left. reflexivity.
Qed.

Lemma main_stored (fuel : nat) (lines : list string) (target : string)
    (entry0 : RawData) (h : Heap) (r : Run) (o : Outcome) :
  ingest atof (start_run entry0 h) lines = Ok r ->
  main atof expf logf cosf sinf rand RAND_MAX qsort fuel 3 (Some lines)
    target entry0 h = Some o ->
  forall index,
    option_map (option_map stored_part) (bucket_at (final_buckets o) index)
    = option_map (option_map stored_part) (bucket_at (buckets r) index) /\
    (index <> hash target ->
     bucket_at (final_buckets o) index = bucket_at (buckets r) index).
Proof.
  intros Hi. rewrite main_unfold. simpl negb. cbv iota. rewrite Hi. intros Ho index.
  assert (Hlen : length (buckets r) = Z.to_nat TABLE_SIZE)
    by (rewrite (ingest_length atof lines _ r Hi); reflexivity).
  destruct (analyse_target_cases expf logf cosf sinf rand RAND_MAX qsort
              fuel (buckets r) (heap r) target o Hlen Ho)
    as [[->|(p & q & Hp & Hq & ->)] _]; [split; reflexivity|].
  pose proof (hash_range target) as Hr.
  destruct (Z.eq_dec (hash target) index) as [<-|Hne].
  - split; [|congruence].
    rewrite (bucket_at_set_eq _ _ _ q Hp), Hp. simpl. rewrite Hq. reflexivity.
  - rewrite bucket_at_set_ne by lia. split; reflexivity.
Qed.

Lemma main_nan (fuel : nat) (lines : list string) (target : string)
    (entry0 : RawData) (h : Heap) (r : Run) (p : Portfolio) :
  (forall l, Permutation l (qsort compare l)) ->
  (forall ok, In ok h -> ok = true) ->
  ingest atof (start_run entry0 h) lines = Ok r ->
  bucket_at (buckets r) (hash target) = Some (Some p) ->
  stand_dev (returns p) (day_count p) (mean (returns p) (day_count p))
    = S754_nan ->
  exists o,
    main atof expf logf cosf sinf rand RAND_MAX qsort (S (S fuel)) 3
      (Some lines) target entry0 h = Some o /\
    exit o = Exited 0 /\
    stdout o = [ {| rep_type_name := type_name p;
                    rep_mean := mean (returns p) (day_count p);
                    rep_stability := S754_nan;
                    rep_min_percentage := S754_nan;
                    rep_max_percentage := S754_nan |} ].
Proof.
  intros Hperm Hok Hi Hb Hsd. rewrite main_unfold. simpl negb. cbv iota.
  rewrite Hi. apply analyse_target_nan; try assumption.
  apply alloc_succeeds. intros ok Hin. apply Hok.
  pose proof (ingest_cases atof lines (start_run entry0 h) eq_refl) as Hc.
  rewrite Hi in Hc. apply (start_heap entry0), Hc, Hin.
Qed.

End Runs.

(** X17: A run of [main] prints exactly one line when it exits with 0, after
    all four analysis stages, and nothing otherwise.  The other ends are
    exit code 1 (wrong argument count, file not opened, or a failed
    allocation), 2, 3, a label overrun, and the sample array being NULL
    after a failed allocation; the [return 3] after [send2python] is never
    taken. *)
Theorem main_prints_one_line_exactly_on_exit_0 (atof : string -> spec_float)
    (expf logf cosf sinf : spec_float -> spec_float) (rand : nat -> Z)
    (RAND_MAX : Z)
    (qsort : (spec_float -> spec_float -> Z) -> list spec_float -> list spec_float)
    (fuel : nat) (argc : Z) (file : option (list string)) (target : string)
    (entry0 : RawData) (h : Heap) (o : Outcome) :
  main atof expf logf cosf sinf rand RAND_MAX qsort fuel argc file target
    entry0 h = Some o ->
  (exit o = Exited 0 /\ (exists line, stdout o = [line]) /\
   calls o = [CallSynth; CallAnalyze; CallRieman; CallSend]) \/
  (stdout o = [] /\
   ((exit o = Exited 1 /\ (argc <> 3 \/ file = None \/ In false h)) \/
    exit o = Exited 2 \/ exit o = Exited 3 \/
    exit o = Crashed LabelOverrun \/
    (exit o = Crashed NullSample /\ In false h))).
Proof. apply main_cases. Qed.

Lemma main_prints_one_line_exactly_on_exit_0_witness :
  main Ref.atof Ref.expf Ref.logf Ref.cosf Ref.sinf Ref.rand Ref.RAND_MAX
    Ref.qsort 0 3 (Some two_lines) "STOCKS" blank_entry [] = Some two_lines_outcome /\
  ((exit two_lines_outcome = Exited 0 /\
    (exists line, stdout two_lines_outcome = [line]) /\
    calls two_lines_outcome = [CallSynth; CallAnalyze; CallRieman; CallSend]) \/
   (stdout two_lines_outcome = [] /\
    ((exit two_lines_outcome = Exited 1 /\
      (3 <> 3 \/ Some two_lines = None \/ In false [])) \/
     exit two_lines_outcome = Exited 2 \/ exit two_lines_outcome = Exited 3 \/
     exit two_lines_outcome = Crashed LabelOverrun \/
     (exit two_lines_outcome = Crashed NullSample /\ In false [])))).
Proof.
  assert (H : main Ref.atof Ref.expf Ref.logf Ref.cosf Ref.sinf Ref.rand
                Ref.RAND_MAX Ref.qsort 0 3 (Some two_lines) "STOCKS"
                blank_entry [] = Some two_lines_outcome)
    by (vm_compute; reflexivity).
  split; [exact H|].
  exact (main_prints_one_line_exactly_on_exit_0 _ _ _ _ _ _ _ _ _ _ _ _ _ _ _ H).
Defined.

(** X18: The analysis writes only the four statistics of the target's bucket:
    every label, series, count and capacity is as ingestion left it, and
    the other buckets are untouched. *)
Theorem analysis_keeps_the_stored_series (atof : string -> spec_float)
    (expf logf cosf sinf : spec_float -> spec_float) (rand : nat -> Z)
    (RAND_MAX : Z)
    (qsort : (spec_float -> spec_float -> Z) -> list spec_float -> list spec_float)
    (fuel : nat) (lines : list string) (target : string) (entry0 : RawData)
    (h : Heap) (r : Run) (o : Outcome) :
  ingest atof (start_run entry0 h) lines = Ok r ->
  main atof expf logf cosf sinf rand RAND_MAX qsort fuel 3 (Some lines)
    target entry0 h = Some o ->
  forall index,
    option_map (option_map stored_part) (bucket_at (final_buckets o) index)
    = option_map (option_map stored_part) (bucket_at (buckets r) index) /\
    (index <> hash target ->
     bucket_at (final_buckets o) index = bucket_at (buckets r) index).
Proof. apply main_stored. Qed.

Lemma analysis_keeps_the_stored_series_witness :
  option_map (option_map stored_part)
    (bucket_at (final_buckets two_lines_outcome) (hash "STOCKS"))
  = option_map (option_map stored_part)
      (bucket_at (buckets two_lines_run) (hash "STOCKS")).
Proof.
  assert (Hi : ingest Ref.atof (start_run blank_entry []) two_lines
               = Ok two_lines_run) by (vm_compute; reflexivity).
  assert (H : main Ref.atof Ref.expf Ref.logf Ref.cosf Ref.sinf Ref.rand
                Ref.RAND_MAX Ref.qsort 0 3 (Some two_lines) "STOCKS"
                blank_entry [] = Some two_lines_outcome)
    by (vm_compute; reflexivity).
  exact (proj1 (analysis_keeps_the_stored_series _ _ _ _ _ _ _ _ _ _ _ _ _ _ _
                  Hi H (hash "STOCKS"))).
Defined.

(** X19: A NaN deviation is not caught by the test [sdev == 0.0]: when no
    allocation fails the run goes through every stage, exits with 0 and
    prints NaN for the stability and for both estimates. *)
Theorem nan_deviation_is_reported (atof : string -> spec_float)
    (expf logf cosf sinf : spec_float -> spec_float) (rand : nat -> Z)
    (RAND_MAX : Z)
    (qsort : (spec_float -> spec_float -> Z) -> list spec_float -> list spec_float)
    (fuel : nat) (lines : list string) (target : string) (entry0 : RawData)
    (h : Heap) (r : Run) (p : Portfolio) :
  (forall l, Permutation l (qsort compare l)) ->
  (forall ok, In ok h -> ok = true) ->
  ingest atof (start_run entry0 h) lines = Ok r ->
  bucket_at (buckets r) (hash target) = Some (Some p) ->
  stand_dev (returns p) (day_count p) (mean (returns p) (day_count p))
    = S754_nan ->
  exists o,
    main atof expf logf cosf sinf rand RAND_MAX qsort (S (S fuel)) 3
      (Some lines) target entry0 h = Some o /\
    exit o = Exited 0 /\
    stdout o = [ {| rep_type_name := type_name p;
                    rep_mean := mean (returns p) (day_count p);
                    rep_stability := S754_nan;
                    rep_min_percentage := S754_nan;
                    rep_max_percentage := S754_nan |} ].
Proof. apply main_nan. Qed.

Lemma nan_deviation_is_reported_witness :
  returns huge_bucket = [S754_infinity false; S754_infinity false] /\
  exists o,
    main Ref.atof Ref.expf Ref.logf Ref.cosf Ref.sinf Ref.rand Ref.RAND_MAX
      Ref.qsort 2 3 (Some huge_lines) "A" blank_entry [] = Some o /\
    exit o = Exited 0 /\
    stdout o = [ {| rep_type_name := "a";
                    rep_mean := S754_infinity false;
                    rep_stability := S754_nan;
                    rep_min_percentage := S754_nan;
                    rep_max_percentage := S754_nan |} ].
Proof.
  split; [reflexivity|].
  assert (Hi : ingest Ref.atof (start_run blank_entry []) huge_lines
               = Ok huge_run) by (vm_compute; reflexivity).
  assert (Hb : bucket_at (buckets huge_run) (hash "A") = Some (Some huge_bucket))
    by (vm_compute; reflexivity).
  assert (Hs : stand_dev (returns huge_bucket) (day_count huge_bucket)
                 (mean (returns huge_bucket) (day_count huge_bucket))
               = S754_nan) by (vm_compute; reflexivity).
  exact (nan_deviation_is_reported Ref.atof Ref.expf Ref.logf Ref.cosf Ref.sinf
           Ref.rand Ref.RAND_MAX Ref.qsort 0 huge_lines "A" blank_entry []
           huge_run huge_bucket (qsort_perm compare)
           (fun ok (Hin : In ok []) => match Hin with end) Hi Hb Hs).
Defined.

(** ** The uniform draws of the sampler *)

Lemma shr_1_m (mrs : shr_record) :
  0 <= shr_m mrs -> shr_m (shr_1 mrs) = shr_m mrs / 2.
Proof.
  destruct mrs as [m r s]. simpl. intros Hm. rewrite <- Z.div2_div.
  destruct m as [|[p|p|]|p]; try reflexivity. lia.
Qed.

Lemma iter_shr_m (p : positive) (mrs : shr_record) :
  0 <= shr_m mrs ->
  shr_m (SpecFloat.iter_pos shr_1 p mrs) = shr_m mrs / 2 ^ Zpos p.
Proof.
  revert mrs. induction p as [p IH|p IH|]; intros mrs Hm; simpl SpecFloat.iter_pos.
  - assert (H1 : 0 <= shr_m (shr_1 mrs))
      by (rewrite shr_1_m by exact Hm; apply Z.div_pos; lia).
    assert (H2 : 0 <= shr_m (SpecFloat.iter_pos shr_1 p (shr_1 mrs)))
      by (rewrite IH by exact H1; apply Z.div_pos; lia).
    rewrite IH by exact H2. rewrite IH by exact H1. rewrite shr_1_m by exact Hm.
    rewrite !Z.div_div by lia. f_equal.
    replace (Zpos p~1) with (1 + (Zpos p + Zpos p)) by lia.
    rewrite !Z.pow_add_r by lia. change (2 ^ 1) with 2. ring.
  - assert (H1 : 0 <= shr_m (SpecFloat.iter_pos shr_1 p mrs))
      by (rewrite IH by exact Hm; apply Z.div_pos; lia).
    rewrite IH by exact H1. rewrite IH by exact Hm.
    rewrite Z.div_div by lia. f_equal.
    replace (Zpos p~0) with (Zpos p + Zpos p) by lia.
    rewrite Z.pow_add_r by lia. reflexivity.
  - rewrite shr_1_m by exact Hm. reflexivity.
Qed.

Lemma round_nearest_even_range (mx : Z) (lx : location) :
  mx <= round_nearest_even mx lx <= mx + 1.
Proof.
  destruct lx as [|[]]; simpl; try lia. destruct (Z.even mx); lia.
Qed.

(** A positive double with a full mantissa, rounded to [float]: the
    leading 24 bits or their successor. *)
Lemma float_of_double_53 (m : positive) (e : Z) :
  digits m = 53 -> -178 <= e <= 74 ->
  exists mr er,
    float_of_double (S754_finite false m e) = S754_finite false mr er /\
    ((er = e + 29 /\ 2 ^ 23 <= Zpos mr < 2 ^ 24) \/
     (er = e + 30 /\ Zpos mr = 2 ^ 23)).
Proof.
  intros Hd He. pose proof (digits_bounds m) as Hm. rewrite Hd in Hm.
  unfold float_of_double. cbn [cond_Zopp binary_normalize].
  unfold binary_round. fold (digits m). rewrite Hd.
  assert (Hf : fexp F32.prec F32.emax (53 + e) = e + 29)
    by (unfold fexp, emin, F32.prec, F32.emax; lia).
  rewrite Hf. unfold shl_align.
  replace (e + 29 - e) with 29 by lia. cbv iota.
  unfold binary_round_aux, shr_fexp.
  change (Zdigits2 (Zpos m)) with (digits m). rewrite Hd, Hf.
  replace (e + 29 - e) with 29 by lia.
  cbn [shr_record_of_loc shr].
  set (mrs := SpecFloat.iter_pos shr_1 29 _).
  assert (Hq : shr_m mrs = Zpos m / 2 ^ 29)
    by (unfold mrs; rewrite iter_shr_m by (simpl; lia); reflexivity).
  pose proof (round_nearest_even_range (shr_m mrs) (loc_of_shr_record mrs)) as Hr.
  set (m1 := round_nearest_even (shr_m mrs) (loc_of_shr_record mrs)) in *.
  assert (Hq1 : 2 ^ 23 <= shr_m mrs < 2 ^ 24).
  { rewrite Hq. split.
    - apply Z.div_le_lower_bound; [lia|]. rewrite <- Z.pow_add_r by lia. exact (proj1 Hm).
    - apply Z.div_lt_upper_bound; [lia|]. rewrite <- Z.pow_add_r by lia. exact (proj2 Hm). }
  destruct m1 as [|p1|p1] eqn:E1; [lia| |lia].
  change (Zdigits2 (Zpos p1)) with (digits p1).
  destruct (Z.eq_dec (Zpos p1) (2 ^ 24)) as [Hc|Hc].
  - assert (Hd1 : digits p1 = 25).
    { apply Z.le_antisymm.
      - apply digits_le; [lia|]. rewrite Hc. reflexivity.
      - apply (digits_ge p1 24). lia. }
    rewrite Hd1.
    assert (Hf1 : fexp F32.prec F32.emax (25 + (e + 29)) - (e + 29) = 1)
      by (unfold fexp, emin, F32.prec, F32.emax; lia).
    rewrite Hf1. cbn [shr SpecFloat.iter_pos].
    assert (Hp1 : p1 = 16777216%positive) by (apply Pos2Z.inj; rewrite Hc; reflexivity).
    subst p1. cbn [shr_1 shr_m].
    destruct (Z.leb_spec (e + 29 + 1) (F32.emax - F32.prec));
      [|unfold F32.emax, F32.prec in *; lia].
    eexists _, _. split; [reflexivity|]. right. split; [lia|reflexivity].
  - assert (Hd1 : digits p1 = 24).
    { apply Z.le_antisymm.
      - apply digits_le; lia.
      - apply (digits_ge p1 23). lia. }
    rewrite Hd1.
    assert (Hf1 : fexp F32.prec F32.emax (24 + (e + 29)) - (e + 29) = 0)
      by (unfold fexp, emin, F32.prec, F32.emax; lia).
    rewrite Hf1. cbn [shr shr_m].
    destruct (Z.leb_spec (e + 29) (F32.emax - F32.prec));
      [|unfold F32.emax, F32.prec in *; lia].
    eexists _, _. split; [reflexivity|]. left. split; [reflexivity|lia].
Qed.

Lemma add_one64 (r : Z) :
  0 <= r < 2 ^ 52 ->
  F64.add (F64.of_Z r) (F64.of_Z 1) = D64 false (Z.to_pos (r + 1)) 0.
Proof.
  intros Hr. destruct r as [|n|n]; [reflexivity| |lia].
  assert (Hn : digits (n + 1) <= 53)
    by (apply digits_le; [lia|]; rewrite Pos2Z.inj_add; lia).
  assert (Hn0 : digits n <= 53) by (apply digits_le; lia).
  rewrite (of_Z64 n Hn0), (of_Z64 1) by (vm_compute; discriminate).
  rewrite add64_exact by (try exact Hn; lia).
  replace (Z.to_pos (Zpos n + 1)) with (n + 1)%positive by lia. reflexivity.
Qed.

(** Dividing by a power of two is exact. *)
Lemma div64_pow2 (a P : positive) (j : Z) :
  digits a <= 53 -> 0 <= j <= 52 -> Zpos P = 2 ^ j ->
  F64.div (D64 false a 0) (D64 false P 0) = D64 false a (- j).
Proof.
  intros Ha Hj HP. pose proof (digits_pos a) as Ha1.
  assert (HdP : digits P = j + 1).
  { apply Z.le_antisymm.
    - apply digits_le; [lia|]. rewrite HP. apply Z.pow_lt_mono_r; lia.
    - apply digits_ge. lia. }
  unfold F64.div, D64, SFdiv, F64.prec, F64.emax. rewrite HdP.
  set (pa := 53 - digits a). set (pP := 53 - (j + 1)).
  rewrite (div_core_exact _ _ (shlp (shlp a pa) 1)).
  - rewrite xorb_false_r.
    replace (0 - pa - (0 - pP) - 53) with (- j - pa - 1) by (subst pa pP; lia).
    apply binary_round_aux_exact; [|subst pa; lia|lia].
    apply canonical64; lia.
  - rewrite digits_shlp; subst pa; lia.
  - rewrite digits_shlp, HdP; subst pP; lia.
  - subst pa pP. lia.
  - rewrite !Zpos_shlp by (subst pa pP; lia). rewrite HP.
    replace (2 ^ j * 2 ^ pP) with (2 ^ 52)
      by (rewrite <- Z.pow_add_r by (subst pP; lia); f_equal; subst pP; lia).
    change (2 ^ 53) with (2 ^ 52 * 2 ^ 1). ring.
Qed.

Lemma uniform_cases (rand : nat -> Z) (RAND_MAX : Z) (j : Z) (k : nat) :
  1 <= j <= 31 -> RAND_MAX = 2 ^ j - 1 -> 0 <= rand k <= RAND_MAX ->
  (rand k = RAND_MAX /\ uniform rand RAND_MAX k = F32.one) \/
  (rand k < RAND_MAX /\
   exists mr er, uniform rand RAND_MAX k = S754_finite false mr er /\
     (er <= -24 \/ (er = -23 /\ mr = 8388608%positive))).
Proof.
  intros Hj HR Hr.
  assert (Hpow : 2 ^ j <= 2 ^ 31) by (apply Z.pow_le_mono_r; lia).
  assert (Hpos : 2 <= 2 ^ j)
    by (change 2 with (2 ^ 1) at 1; apply Z.pow_le_mono_r; lia).
  change (2 ^ 31) with 2147483648 in Hpow.
  unfold uniform.
  rewrite (add_one64 (rand k)), (add_one64 RAND_MAX)
    by (change (2 ^ 52) with 4503599627370496; lia).
  set (a := Z.to_pos (rand k + 1)).
  assert (Hza : Zpos a = rand k + 1) by (subst a; lia).
  assert (HP : Zpos (Z.to_pos (RAND_MAX + 1)) = 2 ^ j) by lia.
  assert (Hda : digits a <= 53)
    by (apply digits_le; [lia|]; change (2 ^ 53) with 9007199254740992; lia).
  rewrite (div64_pow2 a _ j Hda ltac:(lia) HP).
  pose proof (digits_pos a) as Hd1. pose proof (digits_bounds a) as Hb.
  destruct (Z.eq_dec (rand k) RAND_MAX) as [He|Hne].
  - left. split; [exact He|].
    assert (Hd : digits a = j + 1).
    { apply Z.le_antisymm.
      - apply digits_le; [lia|]. rewrite Z.pow_add_r by lia. lia.
      - apply digits_ge. lia. }
    unfold D64. rewrite Hd.
    assert (Hm : shlp a (53 - (j + 1)) = 4503599627370496%positive).
    { apply Pos2Z.inj. rewrite Zpos_shlp by lia.
      replace (Zpos a) with (2 ^ j) by lia.
      rewrite <- Z.pow_add_r by lia.
      replace (j + (53 - (j + 1))) with 52 by lia. reflexivity. }
    rewrite Hm. replace (- j - (53 - (j + 1))) with (-52) by lia. reflexivity.
  - right. split; [lia|].
    assert (Hd : digits a <= j) by (apply digits_le; lia).
    unfold D64.
    destruct (float_of_double_53 (shlp a (53 - digits a))
                (- j - (53 - digits a)))
      as (mr & er & -> & Hcase);
      [rewrite digits_shlp by lia; lia|lia|].
    exists mr, er. split; [reflexivity|].
    destruct Hcase as [[-> _]|[-> Hm]]; [left; lia|].
    destruct (Z.eq_dec (digits a) j) as [Hj'|Hj']; [|left; lia].
    right. split; [lia|]. apply Pos2Z.inj. rewrite Hm. reflexivity.
Qed.

(** X15: When [RAND_MAX + 1] is a power of two (at most [2^31]) and [rand]
    returns a value from 0 to [RAND_MAX], every uniform draw lies in the
    interval (0, 1]: it is above 0, so [logf] is never taken at 0, it is at
    most 1, and it is 1 when [rand] returns [RAND_MAX]. *)
Theorem uniform_draw_in_unit_interval (rand : nat -> Z) (RAND_MAX : Z) (j : Z)
    (k : nat) :
  1 <= j <= 31 -> RAND_MAX = 2 ^ j - 1 -> 0 <= rand k <= RAND_MAX ->
  F32.ltb F32.zero (uniform rand RAND_MAX k) = true /\
  SFleb (uniform rand RAND_MAX k) F32.one = true /\
  (rand k = RAND_MAX -> uniform rand RAND_MAX k = F32.one).
Proof.
  intros Hj HR Hr.
  destruct (uniform_cases rand RAND_MAX j k Hj HR Hr)
    as [[He ->]|(Hlt & mr & er & -> & Hcase)].
  - repeat split.
  - split; [reflexivity|]. split; [|lia].
    change F32.one with (S754_finite false 8388608 (-23)).
    unfold SFleb, SFcompare.
    destruct Hcase as [Hcase|[-> ->]]; [|reflexivity].
    destruct (Z.compare_spec er (-23)); [lia|reflexivity|lia].
Qed.

Lemma uniform_draw_in_unit_interval_witness :
  0 <= Ref.rand 0 <= Ref.RAND_MAX /\
  F32.ltb F32.zero (uniform Ref.rand Ref.RAND_MAX 0) = true /\
  SFleb (uniform Ref.rand Ref.RAND_MAX 0) F32.one = true.
Proof.
  assert (Hr : 0 <= Ref.rand 0 <= Ref.RAND_MAX) by (vm_compute; split; discriminate).
  split; [exact Hr|].
  destruct (uniform_draw_in_unit_interval Ref.rand Ref.RAND_MAX 31 0
              ltac:(lia) eq_refl Hr) as (H1 & H2 & _).
  split; assumption.
Defined.

Section Query.
Variable atof : string -> spec_float.
Variables expf logf cosf sinf : spec_float -> spec_float.
Variable rand : nat -> Z.
Variable RAND_MAX : Z.
Variable qsort :
  (spec_float -> spec_float -> Z) -> list spec_float -> list spec_float.

Lemma analyse_target_hash (fuel : nat) (b : Table) (h : Heap)
    (target1 target2 : string) :
  hash target1 = hash target2 ->
  analyse_target expf logf cosf sinf rand RAND_MAX qsort fuel b h target1
  = analyse_target expf logf cosf sinf rand RAND_MAX qsort fuel b h target2.
Proof.
  intros Hh. unfold analyse_target. cbv zeta. rewrite Hh. reflexivity.
Qed.

End Query.

(** X20: The query reaches the run only through its bucket index: two
    targets with the same [hash], such as a label and a different label
    that collides with it, give the same exit, the same printed line and
    the same final table. *)
Theorem main_sees_only_the_hash_of_the_target (atof : string -> spec_float)
    (expf logf cosf sinf : spec_float -> spec_float) (rand : nat -> Z)
    (RAND_MAX : Z)
    (qsort : (spec_float -> spec_float -> Z) -> list spec_float -> list spec_float)
    (fuel : nat) (argc : Z) (file : option (list string))
    (target1 target2 : string) (entry0 : RawData) (h : Heap) :
  hash target1 = hash target2 ->
  main atof expf logf cosf sinf rand RAND_MAX qsort fuel argc file target1
    entry0 h
  = main atof expf logf cosf sinf rand RAND_MAX qsort fuel argc file target2
      entry0 h.
Proof.
  intros Hh. rewrite !main_unfold.
  destruct (negb (argc =? 3)); [reflexivity|].
  destruct file as [lines|]; [|reflexivity].
  destruct (ingest atof (start_run entry0 h) lines) as [r|c|c]; try reflexivity.
  apply analyse_target_hash. exact Hh.
Qed.

Lemma main_sees_only_the_hash_of_the_target_witness :
  hash "Bonds" = hash "Stocks" /\
  main Ref.atof Ref.expf Ref.logf Ref.cosf Ref.sinf Ref.rand Ref.RAND_MAX
    Ref.qsort 0 3 (Some two_lines) "Bonds" blank_entry []
  = main Ref.atof Ref.expf Ref.logf Ref.cosf Ref.sinf Ref.rand Ref.RAND_MAX
      Ref.qsort 0 3 (Some two_lines) "Stocks" blank_entry [].
Proof.
  assert (Hh : hash "Bonds" = hash "Stocks") by reflexivity.
  split; [exact Hh|].
  exact (main_sees_only_the_hash_of_the_target Ref.atof Ref.expf Ref.logf
           Ref.cosf Ref.sinf Ref.rand Ref.RAND_MAX Ref.qsort 0 3
           (Some two_lines) "Bonds" "Stocks" blank_entry [] Hh).
Defined.
